(** * The pointer-tilt card and the profile page of the WIRALIS front-end

    A shallow embedding of [client/src/components/BenefitCard.tsx] and
    [client/src/pages/profile.tsx].

    JavaScript numbers are IEEE-754 binary64 values.  They are modelled by
    Rocq's primitive [float], whose operations are the processor's own and
    whose specification ([FloatAxioms]) relates them to the executable
    reference implementation [SpecFloat].  Nothing is idealised: division
    by zero gives an infinity or NaN, and every operation rounds to the
    nearest representable number, ties to even. *)

From Stdlib Require Import Floats ZArith Bool String List Lia.
Import ListNotations.

Set Warnings "-inexact-float".

(** ** JavaScript conversions used by both components *)

Module JS.

(** [ToBoolean] on a number: [+0], [-0] and [NaN] are falsy. *)
Definition truthy (n : float) : bool :=
  negb (PrimFloat.eqb n 0 || is_nan n).

(** [a || b] on two numbers: the first operand when it is truthy, the
    second one otherwise. *)
Definition or_else (a b : float) : float :=
  if truthy a then a else b.

(** [ToBoolean] on a string: only the empty string is falsy. *)
Definition truthy_string (s : string) : bool :=
  negb (String.eqb s EmptyString).

(** [ToBoolean] on [string | null | undefined]. *)
Definition truthy_opt_string (s : option string) : bool :=
  match s with
  | Some s => truthy_string s
  | None => false
  end.

(** [Number.isFinite]. *)
Definition isFinite (n : float) : bool :=
  PrimFloat.ltb (abs n) infinity.

End JS.

(** ** [BenefitCard.tsx] *)

Module BenefitCard.

Local Open Scope float_scope.

(** What [getBoundingClientRect] answers. *)
Record DOMRect := {
  left : float;
  top : float;
  width : float;
  height : float
}.

(** The fields of [React.MouseEvent] that the handler reads;
    [currentTarget] stands for [e.currentTarget.getBoundingClientRect()]. *)
Record MouseEvent := {
  clientX : float;
  clientY : float;
  currentTarget : DOMRect
}.

(** The state cell [useState({ x: 0, y: 0 })]. *)
Record Tilt := { x : float; y : float }.

Definition initialTilt : Tilt := {| x := 0; y := 0 |}.

Section Card.

(** The type of click handlers, [() => void]; the component only tests
    whether one was passed. *)
Context {Handler : Type}.

Record BenefitCardProps := {
  title : string;
  description : string;
  delay : option float;
  onClick : option Handler
}.

(** [x] and [y] of [handleMouseMove]: the pointer relative to the top-left
    corner of the card. *)
Definition sampleX (e : MouseEvent) : float :=
  clientX e - left (currentTarget e).

Definition sampleY (e : MouseEvent) : float :=
  clientY e - top (currentTarget e).

(** [handleMouseMove]: the value of the state cell after the handler ran,
    given the value before. *)
Definition handleMouseMove
    (props : BenefitCardProps) (e : MouseEvent) (tilt : Tilt) : Tilt :=
  match onClick props with
  | None => tilt
  | Some _ =>
      let rect := currentTarget e in
      let x := clientX e - left rect in
      let y := clientY e - top rect in
      let centerX := width rect / 2 in
      let centerY := height rect / 2 in
      let tiltX := ((y - centerY) / centerY) * (-8) in
      let tiltY := ((x - centerX) / centerX) * 8 in
      {| x := tiltX; y := tiltY |}
  end.

(** [handleMouseLeave]. *)
Definition handleMouseLeave (tilt : Tilt) : Tilt :=
  {| x := 0; y := 0 |}.

(** The two pointer events the [div] listens to, and the state cell after
    a run of them. *)
Inductive PointerEvent :=
| MouseMove (e : MouseEvent)
| MouseLeave.

Definition dispatch (props : BenefitCardProps) (tilt : Tilt) (ev : PointerEvent) : Tilt :=
  match ev with
  | MouseMove e => handleMouseMove props e tilt
  | MouseLeave => handleMouseLeave tilt
  end.

Definition run (props : BenefitCardProps) (evs : list PointerEvent) (tilt : Tilt) : Tilt :=
  fold_left (dispatch props) evs tilt.

(** The [transform] template string, kept as its four holes. *)
Record Transform := {
  perspective : float;
  rotateX : float;
  rotateY : float;
  scale : float
}.

Record Style := {
  animationDelay : float;
  transform : option Transform;
  boxShadow : option string
}.

(** [tilt.x || tilt.y ? 1.02 : 1]. *)
Definition scaleOf (tilt : Tilt) : float :=
  if JS.truthy (JS.or_else (x tilt) (y tilt)) then 1.02 else 1.

Definition shadow : string :=
  "
          0 10px 40px rgba(139, 92, 246, 0.2),
          inset 0 1px 0 rgba(255, 255, 255, 0.1)
        ".

(** The [style] attribute of the rendered [div]; [None] is [undefined]. *)
Definition style (props : BenefitCardProps) (tilt : Tilt) : Style :=
  {| animationDelay :=
       match delay props with Some d => d | None => 0 end;
     transform :=
       match onClick props with
       | Some _ =>
           Some {| perspective := 1000;
                   rotateX := x tilt;
                   rotateY := y tilt;
                   scale := scaleOf tilt |}
       | None => None
       end;
     boxShadow :=
       match onClick props with
       | Some _ => Some shadow
       | None => None
       end |}.

(** The part of [className] chosen by the ternary. *)
Definition className (props : BenefitCardProps) : string :=
  match onClick props with
  | Some _ => "cursor-pointer hover-elevate"
  | None => "hover-elevate"
  end.

End Card.

Arguments BenefitCardProps : clear implicits.

(** A side length whose half is computed exactly: finite and at least
    [2^-1021], which covers every size a layout engine reports for a
    visible element. *)
Definition regularSide (w : float) : bool :=
  (0x1p-1021 <=? w) && (w <? infinity).

(** [0 <= p <= w]. *)
Definition within (p w : float) : bool :=
  (0 <=? p) && (p <=? w).

(** [p < 0] or [w < p]: a sample beyond either edge. *)
Definition beyond (p w : float) : bool :=
  (p <? 0) || (w <? p).

(** A card whose top-left corner is the origin of the client area, so
    that the sample is the client point itself. *)
Definition surface (w h : float) : DOMRect :=
  {| left := 0; top := 0; width := w; height := h |}.

Definition pointerAt (sx sy w h : float) : MouseEvent :=
  {| clientX := sx; clientY := sy; currentTarget := surface w h |}.

Definition clickable (t d : string) : BenefitCardProps unit :=
  {| title := t; description := d; delay := None; onClick := Some tt |}.

Definition plain (t d : string) : BenefitCardProps unit :=
  {| title := t; description := d; delay := None; onClick := None |}.

(** A pointer event that stays on a card with regular sides: a move whose
    sample lies between the edges, or a leave. *)
Definition inBounds (ev : PointerEvent) : bool :=
  match ev with
  | MouseMove e =>
      regularSide (width (currentTarget e))
      && regularSide (height (currentTarget e))
      && within (sampleX e) (width (currentTarget e))
      && within (sampleY e) (height (currentTarget e))
  | MouseLeave => true
  end.

(** Both components of a tilt lie in [[-8, 8]]. *)
Definition withinEight (t : Tilt) : bool :=
  (-8 <=? x t) && (x t <=? 8) && (-8 <=? y t) && (y t <=? 8).

End BenefitCard.

(** ** [profile.tsx] *)

Module Profile.

Local Open Scope string_scope.

Record WiralisUser := {
  id : string;
  telegramId : float;
  nickname : string;
  username : option string;
  quote : option string;
  botId : option string;
  registeredAt : string
}.

(** The three fields of the [useQuery] result that the page destructures;
    [data] is [undefined] as long as no fetch has succeeded. *)
Record QueryResult := {
  data : option WiralisUser;
  isLoading : bool;
  error : option string
}.

(** [localStorage], a string-keyed store of strings. *)
Definition Storage : Type := list (string * string).

Fixpoint getItem (storage : Storage) (key : string) : option string :=
  match storage with
  | [] => None
  | (k, v) :: rest => if String.eqb k key then Some v else getItem rest key
  end.

Definition removeItem (storage : Storage) (key : string) : Storage :=
  filter (fun kv => negb (String.eqb (fst kv) key)) storage.

(** How an expression completes: normally, or by throwing. *)
Inductive Exn := SyntaxError (message : string).

Inductive completion (A : Type) :=
| Normal (a : A)
| Throw (e : Exn).

Arguments Normal {A} a.
Arguments Throw {A} e.

Definition bind {A B : Type} (c : completion A) (k : A -> completion B)
  : completion B :=
  match c with
  | Normal a => k a
  | Throw e => Throw e
  end.

(** [try { body } catch (e) { handler }]. *)
Definition try_catch {A : Type}
    (body : completion A) (handler : Exn -> completion A) : completion A :=
  match body with
  | Normal a => Normal a
  | Throw e => handler e
  end.

(** The state cell [localUser], and what the page has written with
    [console.error]. *)
Record PageState := {
  localUser : option WiralisUser;
  console : list string
}.

Definition initialState : PageState :=
  {| localUser := None; console := [] |}.

Definition setLocalUser (u : option WiralisUser) (st : PageState) : PageState :=
  {| localUser := u; console := console st |}.

Definition console_error (message : string) (st : PageState) : PageState :=
  {| localUser := localUser st; console := console st ++ [message] |}.

(** What the profile card shows of a user. *)
Record CardView := {
  shownNickname : string;
  shownUsername : option string;
  shownQuote : option string;
  shownBotId : option string;
  shownTelegramId : float
}.

(** What the page renders: the early return, or one of the four branches
    of the conditional in [main]. *)
Inductive View :=
| NotFound
| Skeleton
| LoadError
| ProfileCard (card : CardView)
| Blank.

(** [field && <element/>] on an optional string field. *)
Definition shown (field : option string) : option string :=
  if JS.truthy_opt_string field then field else None.

Definition cardOf (u : WiralisUser) : CardView :=
  {| shownNickname := nickname u;
     shownUsername := shown (username u);
     shownQuote := shown (quote u);
     shownBotId := shown (botId u);
     shownTelegramId := telegramId u |}.

Section Page.

(** [JSON.parse], narrowed to the type the state cell is declared with: a
    user record, or [None] for [null]. *)
Variable JSON_parse : string -> completion (option WiralisUser).

(** The body of the [useEffect] that runs once after the first render. *)
Definition loadSavedUser (storage : Storage) (st : PageState)
  : completion PageState :=
  let saved := getItem storage "wiralis_user" in
  match saved with
  | Some text =>
      if JS.truthy_string text then
        try_catch
          (bind (JSON_parse text) (fun u => Normal (setLocalUser u st)))
          (fun e => Normal (console_error "Failed to parse saved user" st))
      else Normal st
  | None => Normal st
  end.

End Page.

(** [handleLogout]: the store and the location after the click. *)
Definition handleLogout (storage : Storage) : Storage * string :=
  (removeItem storage "wiralis_user", "/").

(** [const displayUser = user || localUser]. *)
Definition displayUser (user localUser : option WiralisUser)
  : option WiralisUser :=
  match user with
  | Some u => Some u
  | None => localUser
  end.

(** The render function; [userId] is [params?.userId]. *)
Definition render (userId : option string) (q : QueryResult) (st : PageState)
  : View :=
  if negb (JS.truthy_opt_string userId) then NotFound
  else if isLoading q then Skeleton
  else match error q with
       | Some _ => LoadError
       | None =>
           match displayUser (data q) (localUser st) with
           | Some u => ProfileCard (cardOf u)
           | None => Blank
           end
       end.

(** The options the page passes to [useQuery]. *)
Record QueryOptions := {
  queryKey : list (option string);
  enabled : bool
}.

Definition queryOptions (userId : option string) : QueryOptions :=
  {| queryKey := [Some "/api/profile"; userId];
     enabled := JS.truthy_opt_string userId |}.

(** A parser that knows one document, used to run the page on examples. *)
Definition parseOnlyNull (text : string) : completion (option WiralisUser) :=
  if String.eqb text "null" then Normal None
  else Throw (SyntaxError "Unexpected token").

Definition sampleUser : WiralisUser :=
  {| id := "u1"; telegramId := 42%float; nickname := "thistle";
     username := Some "void"; quote := None; botId := Some "W-7";
     registeredAt := "2024-01-01T00:00:00Z" |}.

(** A second record, as a lookup may return it while [sampleUser] is the
    saved one. *)
Definition liveUser : WiralisUser :=
  {| id := "u1"; telegramId := 42%float; nickname := "thistle-renamed";
     username := None; quote := Some "per aspera"; botId := Some "W-7";
     registeredAt := "2024-01-01T00:00:00Z" |}.

(** A parser that also knows the document of [sampleUser]. *)
Definition parseKnown (text : string) : completion (option WiralisUser) :=
  if String.eqb text "{sampleUser}" then Normal (Some sampleUser)
  else parseOnlyNull text.

End Profile.

(** ** Binary64 arithmetic: the quantities the proofs measure with *)

Module Binary64.

Local Open Scope Z_scope.

(** [SpecFloat.fexp] at precision 53 and maximal exponent 1024. *)
Definition fexp64 (e : Z) : Z := Z.max (e - 53) (-1074).

(** Whether a shift has dropped a non-zero bit. *)
Definition inexact (mrs : shr_record) : bool := shr_r mrs || shr_s mrs.

(** The magnitude of a finite binary64 number in units of [2^-1074]. *)
Definition scaled (m : positive) (e : Z) : Z := Zpos m * 2 ^ (e + 1074).

(** A float that is a zero or a finite number of magnitude at most [F]
    units. *)
Definition fin_le (f : spec_float) (F : Z) : Prop :=
  match f with
  | S754_zero _ => True
  | S754_finite _ m e => -1074 <= e <= 971 /\ scaled m e <= F
  | _ => False
  end.

(** An infinity, or a finite number of magnitude at least [G] units. *)
Definition fin_ge (f : spec_float) (G : Z) : Prop :=
  match f with
  | S754_infinity _ => True
  | S754_finite _ m e => -1074 <= e <= 971 /\ G <= scaled m e
  | _ => False
  end.

(** A zero, a finite number or an infinity of sign [s] ([true] is
    negative). *)
Definition signed_as (s : bool) (f : spec_float) : Prop :=
  match f with
  | S754_nan => False
  | S754_zero s' | S754_infinity s' | S754_finite s' _ _ => s' = s
  end.

(** The mantissa [2^52] shared by the binary64 numbers 1, 2 and 8. *)
Definition m_pow2 : positive := 4503599627370496.

End Binary64.

Import BenefitCard Profile Binary64.

(** * Rounding to nearest in binary64 *)

Section Rounding.

Local Open Scope Z_scope.

(** ** Digits *)

Lemma fexp64_eq e : fexp prec emax e = fexp64 e.
Proof. reflexivity. Qed.

Lemma digits2_pos_bounds (p : positive) :
  2 ^ (Zpos (digits2_pos p) - 1) <= Zpos p < 2 ^ Zpos (digits2_pos p).
Proof.
  induction p as [p IH | p IH | ]; simpl digits2_pos.
  - rewrite Pos2Z.inj_succ.
    replace (Z.succ (Zpos (digits2_pos p)) - 1) with (Z.succ (Zpos (digits2_pos p) - 1)) by lia.
    rewrite !Z.pow_succ_r by lia. lia.
  - rewrite Pos2Z.inj_succ.
    replace (Z.succ (Zpos (digits2_pos p)) - 1) with (Z.succ (Zpos (digits2_pos p) - 1)) by lia.
    rewrite !Z.pow_succ_r by lia. lia.
  - simpl. lia.
Qed.

Lemma Zdigits2_bounds (m : Z) :
  0 < m -> 2 ^ (Zdigits2 m - 1) <= m < 2 ^ Zdigits2 m.
Proof.
  destruct m as [|p|p]; try lia. intros _. apply digits2_pos_bounds.
Qed.

Lemma Zdigits2_nonneg m : 0 <= Zdigits2 m.
Proof. destruct m; simpl; lia. Qed.

Lemma Zdigits2_pos m : 0 < m -> 0 < Zdigits2 m.
Proof. destruct m; simpl; lia. Qed.

Lemma Zdigits2_ge (m a : Z) : 0 < m -> 2 ^ (a - 1) <= m -> a <= Zdigits2 m.
Proof.
  intros Hm Ha.
  destruct (Zdigits2_bounds m Hm) as [_ Hu].
  destruct (Z_lt_le_dec (Zdigits2 m) a) as [Hlt|]; [|lia].
  exfalso.
  assert (2 ^ Zdigits2 m <= 2 ^ (a - 1)).
  { apply Z.pow_le_mono_r; try lia. }
  lia.
Qed.

Lemma Zdigits2_le (m a : Z) : 0 < m -> m < 2 ^ a -> Zdigits2 m <= a.
Proof.
  intros Hm Ha.
  destruct (Zdigits2_bounds m Hm) as [Hl _].
  destruct (Z_lt_le_dec a (Zdigits2 m)) as [Hlt|]; [|lia].
  exfalso.
  assert (0 <= a).
  { destruct (Z_lt_le_dec a 0); [|lia]. rewrite Z.pow_neg_r in Ha; lia. }
  assert (2 ^ a <= 2 ^ (Zdigits2 m - 1)).
  { apply Z.pow_le_mono_r; try lia. }
  lia.
Qed.

(** ** Right shifts that remember what they drop *)

Lemma shr_1_m mrs : 0 <= shr_m mrs -> shr_m (shr_1 mrs) = shr_m mrs / 2.
Proof.
  destruct mrs as [m r s]; simpl. intros Hm.
  destruct m as [|p|p]; [reflexivity| |lia].
  destruct p as [p|p|]; simpl.
  - apply (Z.div_unique _ _ _ 1); lia.
  - apply (Z.div_unique _ _ _ 0); lia.
  - reflexivity.
Qed.

Lemma shr_1_inexact mrs :
  0 <= shr_m mrs -> inexact (shr_1 mrs) = inexact mrs || Z.odd (shr_m mrs).
Proof.
  destruct mrs as [m r s]; unfold inexact; simpl. intros Hm.
  destruct m as [|[p|p|]|p]; try lia; destruct r, s; reflexivity.
Qed.

Lemma iter_pos_nat {A : Type} (f : A -> A) (p : positive) :
  forall x, SpecFloat.iter_pos f p x = Nat.iter (Pos.to_nat p) f x.
Proof.
  induction p as [p IH | p IH | ]; intros x; simpl SpecFloat.iter_pos.
  - rewrite !IH, Pos2Nat.inj_xI.
    replace (S (2 * Pos.to_nat p))%nat with (Pos.to_nat p + S (Pos.to_nat p))%nat by lia.
    rewrite Nat.iter_add. f_equal. now rewrite Nat.iter_succ_r.
  - rewrite !IH, Pos2Nat.inj_xO.
    replace (2 * Pos.to_nat p)%nat with (Pos.to_nat p + Pos.to_nat p)%nat by lia.
    now rewrite Nat.iter_add.
  - reflexivity.
Qed.

Lemma shr_nat (n : nat) (mrs : shr_record) :
  0 <= shr_m mrs ->
  shr_m (Nat.iter n shr_1 mrs) = shr_m mrs / 2 ^ Z.of_nat n /\
  (inexact (Nat.iter n shr_1 mrs) = true <->
   inexact mrs = true \/ shr_m (Nat.iter n shr_1 mrs) * 2 ^ Z.of_nat n < shr_m mrs).
Proof.
  intros Hm. induction n as [|n [IHm IHi]].
  - simpl. rewrite Z.div_1_r. split; [reflexivity|]. split; [tauto|]. intros [H|H]; [exact H|lia].
  - set (r := Nat.iter n shr_1 mrs) in *.
    assert (Hp : 0 < 2 ^ Z.of_nat n) by (apply Z.pow_pos_nonneg; lia).
    assert (Hr : 0 <= shr_m r).
    { rewrite IHm. apply Z.div_pos; lia. }
    change (Nat.iter (S n) shr_1 mrs) with (shr_1 r).
    rewrite shr_1_m, shr_1_inexact by exact Hr.
    rewrite Nat2Z.inj_succ, Z.pow_succ_r by lia.
    split.
    + rewrite IHm, Z.div_div by lia. f_equal. lia.
    + rewrite orb_true_iff, IHi.
      assert (Hdm : shr_m r * 2 ^ Z.of_nat n <= shr_m mrs).
      { rewrite IHm. rewrite Z.mul_comm. apply Z.mul_div_le. lia. }
      pose proof (Z.div_mod (shr_m r) 2 ltac:(lia)) as Hdiv.
      rewrite Zmod_odd in Hdiv.
      destruct (Z.odd (shr_m r)).
      * split; [intros _; right; nia | intros _; right; reflexivity].
      * split.
        -- intros [[H0|H0]|H0]; try discriminate; [left; exact H0|right; nia].
        -- intros [H0|H0]; [left; left; exact H0|left; right; nia].
Qed.

(** ** The shift that precedes rounding *)

Lemma shr_spec (mrs : shr_record) (e n : Z) :
  0 <= shr_m mrs ->
  exists mrs',
    shr mrs e n = (mrs', e + Z.max n 0) /\
    shr_m mrs' = shr_m mrs / 2 ^ Z.max n 0 /\
    (inexact mrs' = true <->
     inexact mrs = true \/ shr_m mrs' * 2 ^ Z.max n 0 < shr_m mrs).
Proof.
  intros Hm. destruct n as [|p|p]; simpl shr.
  - exists mrs. rewrite Z.add_0_r. simpl. rewrite Z.div_1_r.
    repeat split; try tauto. intros [H|H]; [exact H|lia].
  - exists (SpecFloat.iter_pos shr_1 p mrs).
    replace (Z.max (Z.pos p) 0) with (Z.of_nat (Pos.to_nat p)) by lia.
    rewrite iter_pos_nat.
    destruct (shr_nat (Pos.to_nat p) mrs Hm) as [H1 H2].
    repeat split; try assumption; try apply H2.
    f_equal. lia.
  - exists mrs. replace (Z.max (Z.neg p) 0) with 0 by lia.
    rewrite Z.add_0_r. simpl. rewrite Z.div_1_r.
    repeat split; try tauto. intros [H|H]; [exact H|lia].
Qed.

Lemma inexact_record_of_loc (m : Z) (l : location) :
  shr_m (shr_record_of_loc m l) = m /\
  (inexact (shr_record_of_loc m l) = true <-> l <> loc_Exact).
Proof.
  destruct l as [|[| |]]; simpl; split; try reflexivity;
    unfold inexact; simpl; split; congruence.
Qed.

(** The exponent [shr_fexp] settles on and the mantissa it leaves. *)
Lemma shr_fexp_spec (m e : Z) (l : location) :
  0 <= m ->
  let e' := Z.max e (fexp64 (Zdigits2 m + e)) in
  exists mrs',
    shr_fexp prec emax m e l = (mrs', e') /\
    shr_m mrs' = m / 2 ^ (e' - e) /\
    (inexact mrs' = true <-> l <> loc_Exact \/ shr_m mrs' * 2 ^ (e' - e) < m).
Proof.
  intros Hm e'. unfold shr_fexp. rewrite fexp64_eq.
  destruct (inexact_record_of_loc m l) as [Hrm Hri].
  destruct (shr_spec (shr_record_of_loc m l) e (fexp64 (Zdigits2 m + e) - e))
    as (mrs' & Hs & Hm' & Hi'); [rewrite Hrm; exact Hm|].
  exists mrs'.
  replace (e' - e) with (Z.max (fexp64 (Zdigits2 m + e) - e) 0) by (unfold e'; lia).
  rewrite Hrm, Hri in *.
  repeat split; try assumption; try apply Hi'.
  rewrite Hs. f_equal. unfold e'. lia.
Qed.

Lemma round_nearest_even_bounds (m : Z) (l : location) :
  m <= round_nearest_even m l <= m + 1.
Proof.
  destruct l as [|[| |]]; simpl; try lia. destruct (Z.even m); lia.
Qed.

Lemma round_nearest_even_exact (mrs : shr_record) :
  inexact mrs = false ->
  round_nearest_even (shr_m mrs) (loc_of_shr_record mrs) = shr_m mrs.
Proof.
  destruct mrs as [m [|] [|]]; unfold inexact; simpl; congruence.
Qed.

(** A mantissa that [shr_fexp] leaves above the smallest exponent has all
    its 53 digits. *)
Lemma shifted_mantissa_normal (m e : Z) :
  0 <= m ->
  e <= fexp64 (Zdigits2 m + e) ->
  -1074 < fexp64 (Zdigits2 m + e) ->
  2 ^ 52 <= m / 2 ^ (fexp64 (Zdigits2 m + e) - e).
Proof.
  intros Hm He Hmin. unfold fexp64 in *.
  assert (Hpos : 0 < m).
  { destruct (Z.eq_dec m 0) as [->|]; [simpl in *; lia|lia]. }
  destruct (Zdigits2_bounds m Hpos) as [Hl Hu].
  set (d := Zdigits2 m) in *.
  replace (Z.max (d + e - 53) (-1074) - e) with (d - 53) by lia.
  assert (53 <= d) by lia.
  apply Z.div_le_lower_bound; [apply Z.pow_pos_nonneg; lia|].
  rewrite <- Z.pow_add_r by lia.
  replace (d - 53 + 52) with (d - 1) by lia. exact Hl.
Qed.

(** ** Powers of two *)

Lemma pow2_pos (a : Z) : 0 <= a -> 0 < 2 ^ a.
Proof. intros; apply Z.pow_pos_nonneg; lia. Qed.

Lemma pow2_split (a b c : Z) : 0 <= a -> 0 <= b -> c = a + b -> 2 ^ c = 2 ^ a * 2 ^ b.
Proof. intros Ha Hb ->. apply Z.pow_add_r; assumption. Qed.

(** Cancelling a common power of two in a comparison of scaled mantissas. *)
Lemma scaled_le_shift (m1 e1 m2 e2 k k' : Z) :
  k <= k' -> k' <= e1 -> k' <= e2 ->
  (m1 * 2 ^ (e1 - k) <= m2 * 2 ^ (e2 - k) <-> m1 * 2 ^ (e1 - k') <= m2 * 2 ^ (e2 - k')).
Proof.
  intros Hk H1 H2.
  rewrite (pow2_split (e1 - k') (k' - k) (e1 - k)) by lia.
  rewrite (pow2_split (e2 - k') (k' - k) (e2 - k)) by lia.
  pose proof (pow2_pos (k' - k) ltac:(lia)).
  rewrite !Z.mul_assoc. split; intros H0.
  - apply Z.mul_le_mono_pos_r in H0; assumption.
  - apply Z.mul_le_mono_pos_r; assumption.
Qed.

Lemma scaled_lt_shift (m1 e1 m2 e2 k k' : Z) :
  k <= k' -> k' <= e1 -> k' <= e2 ->
  (m1 * 2 ^ (e1 - k) < m2 * 2 ^ (e2 - k) <-> m1 * 2 ^ (e1 - k') < m2 * 2 ^ (e2 - k')).
Proof.
  intros Hk H1 H2.
  rewrite (pow2_split (e1 - k') (k' - k) (e1 - k)) by lia.
  rewrite (pow2_split (e2 - k') (k' - k) (e2 - k)) by lia.
  pose proof (pow2_pos (k' - k) ltac:(lia)).
  rewrite !Z.mul_assoc. split; intros H0.
  - apply Z.mul_lt_mono_pos_r in H0; assumption.
  - apply Z.mul_lt_mono_pos_r; assumption.
Qed.

(** ** Rounding stays below a representable bound *)

(** A mantissa with all its digits at a higher exponent is larger than
    any 53-digit mantissa at a lower one. *)
Lemma normal_above (m e mF eF k : Z) :
  2 ^ 52 <= m -> mF < 2 ^ 53 -> k <= eF -> eF < e ->
  mF * 2 ^ (eF - k) < m * 2 ^ (e - k).
Proof.
  intros Hm HF Hk He.
  rewrite (pow2_split (e - eF - 1) (1 + (eF - k)) (e - k)) by lia.
  rewrite (Z.pow_add_r 2 1 (eF - k)) by lia.
  pose proof (pow2_pos (e - eF - 1) ltac:(lia)).
  pose proof (pow2_pos (eF - k) ltac:(lia)).
  change (2 ^ 1) with 2. change (2 ^ 53) with (2 * 2 ^ 52) in HF.
  set (A := 2 ^ (e - eF - 1)) in *. set (B := 2 ^ (eF - k)) in *.
  set (c := 2 ^ 52) in *.
  assert (mF * B < 2 * m * B) by (apply Z.mul_lt_mono_pos_r; lia).
  assert (m * (1 * (2 * B)) <= m * (A * (2 * B))).
  { apply Z.mul_le_mono_nonneg_l; [unfold c in *; lia|].
    apply Z.mul_le_mono_nonneg_r; lia. }
  lia.
Qed.

(** Rounding never crosses a representable number: when the exact value,
    which is at least [mx * 2^ex] and is larger when [lx] is inexact, does
    not exceed the binary64 number [mF * 2^eF], neither does its rounding. *)
Lemma binary_round_aux_le (sx : bool) (mx ex : Z) (lx : location) (mF eF k : Z) :
  0 <= mx ->
  ex <= fexp64 (Zdigits2 mx + ex) ->
  k <= ex -> k <= -1074 ->
  0 < mF < 2 ^ 53 -> -1074 <= eF <= 971 ->
  mx * 2 ^ (ex - k) <= mF * 2 ^ (eF - k) ->
  (lx <> loc_Exact -> mx * 2 ^ (ex - k) < mF * 2 ^ (eF - k)) ->
  fin_le (binary_round_aux prec emax sx mx ex lx) (mF * 2 ^ (eF + 1074)).
Proof.
  intros Hmx H0 Hk Hk' HmF HeF H1 H2.
  unfold binary_round_aux.
  destruct (shr_fexp_spec mx ex lx Hmx) as (mrs1 & Hs1 & Hm1 & Hi1).
  rewrite Hs1. clear Hs1.
  set (e1 := Z.max ex (fexp64 (Zdigits2 mx + ex))) in *.
  assert (He1 : e1 = fexp64 (Zdigits2 mx + ex)) by (unfold e1; lia).
  assert (He1min : -1074 <= e1) by (rewrite He1; unfold fexp64; lia).
  set (m1 := shr_m mrs1) in *.
  set (F := mF * 2 ^ (eF - k)) in *.
  pose proof (pow2_pos (e1 - ex) ltac:(lia)) as HP.
  pose proof (pow2_pos (ex - k) ltac:(lia)) as HQ.
  assert (Hm1le : m1 * 2 ^ (e1 - ex) <= mx).
  { rewrite Hm1, Z.mul_comm. apply Z.mul_div_le. exact HP. }
  assert (Hm1nn : 0 <= m1).
  { rewrite Hm1. apply Z.div_pos; lia. }
  assert (Hsplit1 : 2 ^ (e1 - k) = 2 ^ (e1 - ex) * 2 ^ (ex - k)).
  { apply pow2_split; lia. }
  assert (HA : m1 * 2 ^ (e1 - k) <= F).
  { rewrite Hsplit1. nia. }
  assert (Hbig1 : eF < e1 -> 2 ^ 52 <= m1).
  { intros Hlt. pose proof (shifted_mantissa_normal mx ex Hmx H0) as Hn.
    rewrite <- He1 in Hn. rewrite Hm1. apply Hn. lia. }
  set (m2 := round_nearest_even m1 (loc_of_shr_record mrs1)).
  assert (Hm2 : m1 <= m2 /\ m2 * 2 ^ (e1 - k) <= F).
  { pose proof (round_nearest_even_bounds m1 (loc_of_shr_record mrs1)) as Hb.
    fold m2 in Hb. split; [lia|].
    destruct (inexact mrs1) eqn:Hin.
    - assert (Hstrict : m1 * 2 ^ (e1 - k) < F).
      { destruct (proj1 Hi1 eq_refl) as [Hl|Hl].
        - specialize (H2 Hl). rewrite Hsplit1. nia.
        - rewrite Hsplit1. nia. }
      destruct (Z_lt_le_dec eF e1) as [Hlt|Hge].
      + exfalso. specialize (Hbig1 Hlt).
        pose proof (normal_above m1 e1 mF eF k Hbig1 ltac:(lia) ltac:(lia) Hlt).
        unfold F in Hstrict. lia.
      + unfold F in *.
        rewrite (pow2_split (eF - e1) (e1 - k) (eF - k)) in * by lia.
        pose proof (pow2_pos (e1 - k) ltac:(lia)) as HQ1.
        rewrite Z.mul_assoc in *.
        apply Z.mul_lt_mono_pos_r in Hstrict; [|exact HQ1].
        apply Z.mul_le_mono_nonneg_r; lia.
    - unfold m2, m1. rewrite round_nearest_even_exact by exact Hin. exact HA. }
  destruct Hm2 as [Hm12 Hm2F].
  destruct (shr_fexp_spec m2 e1 loc_Exact ltac:(lia)) as (mrs2 & Hs2 & Hm3 & _).
  rewrite Hs2. clear Hs2.
  set (e2 := Z.max e1 (fexp64 (Zdigits2 m2 + e1))) in *.
  remember (shr_m mrs2) as m3 eqn:Em3.
  pose proof (pow2_pos (e2 - e1) ltac:(lia)) as HP2.
  assert (Hm3le : m3 * 2 ^ (e2 - e1) <= m2).
  { rewrite Hm3, Z.mul_comm. apply Z.mul_div_le. exact HP2. }
  assert (Hm3nn : 0 <= m3).
  { rewrite Hm3. apply Z.div_pos; lia. }
  assert (Hm3F : m3 * 2 ^ (e2 - k) <= F).
  { rewrite (pow2_split (e2 - e1) (e1 - k) (e2 - k)) by lia.
    pose proof (pow2_pos (e1 - k) ltac:(lia)) as HQ1.
    rewrite Z.mul_assoc. apply Z.le_trans with (2 := Hm2F).
    apply Z.mul_le_mono_nonneg_r; [apply Z.lt_le_incl; exact HQ1|exact Hm3le]. }
  destruct m3 as [|m|m]; [exact I| |lia].
  assert (He2 : e2 <= eF).
  { destruct (Z_lt_le_dec eF e2) as [Hlt|]; [exfalso|lia].
    assert (Hbig3 : 2 ^ 52 <= Zpos m).
    { destruct (Z_lt_le_dec e1 (fexp64 (Zdigits2 m2 + e1))) as [Hsh|Hsh].
      - rewrite Hm3.
        replace e2 with (fexp64 (Zdigits2 m2 + e1)) in * by (unfold e2; lia).
        apply shifted_mantissa_normal; lia.
      - replace e2 with e1 in * by (unfold e2; lia).
        rewrite Z.sub_diag, Z.pow_0_r, Z.div_1_r in Hm3.
        specialize (Hbig1 Hlt). lia. }
    pose proof (normal_above (Zpos m) e2 mF eF k Hbig3 ltac:(lia) ltac:(lia) Hlt).
    unfold F in Hm3F. lia. }
  assert (Hleb : (e2 <=? emax - prec) = true).
  { apply Z.leb_le. change (emax - prec) with 971. lia. }
  simpl Z.sub in *. rewrite Hleb.
  assert (He2min : -1074 <= e2) by (unfold e2; lia).
  simpl. split; [split; [exact He2min|lia]|].
  unfold scaled. unfold F in Hm3F. clear - Hm3F Hk' He2min HeF.
  apply (scaled_le_shift (Zpos m) e2 mF eF k (-1074) Hk' He2min (proj1 HeF)) in Hm3F.
  replace (e2 + 1074) with (e2 - -1074) by lia.
  replace (eF + 1074) with (eF - -1074) by lia. exact Hm3F.
Qed.

(** ** Rounding stays above a representable bound *)

(** Dropping the low bits of a mantissa does not take it below a
    representable number that it was not below. *)
Lemma shift_stage_ge (m e e' mG eG k : Z) :
  0 <= m -> e <= e' -> k <= e -> k <= eG ->
  0 < mG < 2 ^ 53 ->
  (eG < e' -> 2 ^ 52 <= m / 2 ^ (e' - e)) ->
  mG * 2 ^ (eG - k) <= m * 2 ^ (e - k) ->
  mG * 2 ^ (eG - k) <= m / 2 ^ (e' - e) * 2 ^ (e' - k).
Proof.
  intros Hm He Hk HkG HmG Hbig Hle.
  destruct (Z_lt_le_dec eG e') as [Hlt|Hge].
  - apply Z.lt_le_incl. apply normal_above; try lia; apply Hbig; exact Hlt.
  - pose proof (pow2_pos (e' - e) ltac:(lia)) as HP.
    pose proof (pow2_pos (e - k) ltac:(lia)) as HQ.
    pose proof (pow2_pos (e' - k) ltac:(lia)) as HR.
    rewrite (pow2_split (eG - e') (e' - k) (eG - k)) by lia.
    rewrite Z.mul_assoc.
    apply Z.mul_le_mono_nonneg_r; [apply Z.lt_le_incl; exact HR|].
    apply Z.div_le_lower_bound; [exact HP|].
    apply (Z.mul_le_mono_pos_r _ _ (2 ^ (e - k))); [exact HQ|].
    apply Z.le_trans with (2 := Hle).
    rewrite (pow2_split (eG - e') (e' - k) (eG - k)) by lia.
    rewrite (pow2_split (e' - e) (e - k) (e' - k)) by lia.
    apply Z.eq_le_incl. ring.
Qed.

(** Rounding never crosses a representable number from above either:
    when the exact value is at least [mG * 2^eG], so is its rounding,
    unless it overflows. *)
Lemma binary_round_aux_ge (sx : bool) (mx ex : Z) (lx : location) (mG eG k : Z) :
  0 <= mx ->
  ex <= fexp64 (Zdigits2 mx + ex) ->
  k <= ex -> k <= -1074 ->
  0 < mG < 2 ^ 53 -> -1074 <= eG <= 971 ->
  mG * 2 ^ (eG - k) <= mx * 2 ^ (ex - k) ->
  fin_ge (binary_round_aux prec emax sx mx ex lx) (mG * 2 ^ (eG + 1074)).
Proof.
  intros Hmx H0 Hk Hk' HmG HeG H1.
  unfold binary_round_aux.
  destruct (shr_fexp_spec mx ex lx Hmx) as (mrs1 & Hs1 & Hm1 & _).
  rewrite Hs1. clear Hs1.
  remember (Z.max ex (fexp64 (Zdigits2 mx + ex))) as e1 eqn:Ee1.
  assert (He1 : e1 = fexp64 (Zdigits2 mx + ex)) by lia.
  assert (He1min : -1074 <= e1) by (rewrite He1; unfold fexp64; lia).
  assert (He1ex : ex <= e1) by lia.
  pose proof (pow2_pos (e1 - ex) ltac:(lia)) as HP.
  assert (Hbig1 : -1074 < e1 -> 2 ^ 52 <= mx / 2 ^ (e1 - ex)).
  { intros Hlt. rewrite He1 in *. apply shifted_mantissa_normal; assumption. }
  assert (HA : mG * 2 ^ (eG - k) <= shr_m mrs1 * 2 ^ (e1 - k)).
  { rewrite Hm1. apply shift_stage_ge; try assumption; try lia;
      intros Hlt; apply Hbig1; lia. }
  assert (Hm1nn : 0 <= shr_m mrs1).
  { rewrite Hm1. apply Z.div_pos; [exact Hmx|exact HP]. }
  pose proof (round_nearest_even_bounds (shr_m mrs1) (loc_of_shr_record mrs1)) as Hb.
  remember (round_nearest_even (shr_m mrs1) (loc_of_shr_record mrs1)) as m2 eqn:Em2.
  assert (Hm2nn : 0 <= m2) by lia.
  pose proof (pow2_pos (e1 - k) ltac:(lia)) as HQ1.
  assert (HB : mG * 2 ^ (eG - k) <= m2 * 2 ^ (e1 - k)).
  { apply Z.le_trans with (1 := HA).
    apply Z.mul_le_mono_nonneg_r; [apply Z.lt_le_incl; exact HQ1|lia]. }
  destruct (shr_fexp_spec m2 e1 loc_Exact Hm2nn) as (mrs2 & Hs2 & Hm3 & _).
  rewrite Hs2. clear Hs2.
  remember (Z.max e1 (fexp64 (Zdigits2 m2 + e1))) as e2 eqn:Ee2.
  assert (He2e1 : e1 <= e2) by lia.
  assert (Hbig2 : -1074 < e2 -> 2 ^ 52 <= m2 / 2 ^ (e2 - e1)).
  { intros Hlt.
    destruct (Z_lt_le_dec e1 (fexp64 (Zdigits2 m2 + e1))) as [Hsh|Hsh].
    - replace e2 with (fexp64 (Zdigits2 m2 + e1)) in * by lia.
      apply shifted_mantissa_normal; lia.
    - replace e2 with e1 in * by lia.
      rewrite Z.sub_diag, Z.pow_0_r, Z.div_1_r.
      apply Z.le_trans with (shr_m mrs1); [|lia].
      rewrite Hm1. apply Hbig1. exact Hlt. }
  assert (HC : mG * 2 ^ (eG - k) <= shr_m mrs2 * 2 ^ (e2 - k)).
  { rewrite Hm3. apply shift_stage_ge; try assumption; try lia;
      intros Hlt; apply Hbig2; lia. }
  pose proof (pow2_pos (eG - k) ltac:(lia)) as HG.
  pose proof (pow2_pos (e2 - k) ltac:(lia)) as HQ2.
  assert (HGpos : 0 < mG * 2 ^ (eG - k)) by (apply Z.mul_pos_pos; lia).
  destruct (shr_m mrs2) as [|m|m] eqn:Em3.
  - exfalso. lia.
  - change (emax - prec) with 971.
    destruct (Z.leb_spec e2 971) as [Hfin|Hinf]; [|exact I].
    simpl. split; [lia|].
    unfold scaled.
    apply (scaled_le_shift mG eG (Zpos m) e2 k (-1074)) in HC; try lia.
    replace (e2 + 1074) with (e2 - -1074) by lia.
    replace (eG + 1074) with (eG - -1074) by lia. exact HC.
  - exfalso. assert (Z.neg m * 2 ^ (e2 - k) < 0) by (apply Z.mul_neg_pos; lia). lia.
Qed.

(** ** Canonical representations *)

Lemma bounded_spec (m : positive) (e : Z) :
  bounded prec emax m e = true ->
  Zpos (digits2_pos m) <= 53 /\ -1074 <= e <= 971 /\
  (e = -1074 \/ Zpos (digits2_pos m) = 53).
Proof.
  unfold bounded, canonical_mantissa. rewrite fexp64_eq. unfold fexp64.
  change (emax - prec) with 971.
  rewrite andb_true_iff, Z.eqb_eq, Z.leb_le. lia.
Qed.

Lemma bounded_mantissa (m : positive) (e : Z) :
  bounded prec emax m e = true -> 0 < Zpos m < 2 ^ 53.
Proof.
  intros H. apply bounded_spec in H. destruct H as (Hd & _ & _).
  destruct (digits2_pos_bounds m) as [_ Hu]. split; [lia|].
  apply Z.lt_le_trans with (1 := Hu). apply Z.pow_le_mono_r; lia.
Qed.

Lemma bounded_normal (m : positive) (e : Z) :
  bounded prec emax m e = true -> -1074 < e -> 2 ^ 52 <= Zpos m.
Proof.
  intros H He. apply bounded_spec in H. destruct H as (_ & _ & [Hs|Hd]); [lia|].
  destruct (digits2_pos_bounds m) as [Hl _]. rewrite Hd in Hl. exact Hl.
Qed.

Lemma scaled_pos (m : positive) (e : Z) : -1074 <= e -> 0 < scaled m e.
Proof.
  intros He. unfold scaled. pose proof (pow2_pos (e + 1074) ltac:(lia)). nia.
Qed.

(** On canonical representations the lexicographic comparison of
    [SFcompare] is the comparison of the magnitudes. *)
Lemma compare_bounded (m1 : positive) (e1 : Z) (m2 : positive) (e2 : Z) :
  bounded prec emax m1 e1 = true ->
  bounded prec emax m2 e2 = true ->
  match Z.compare e1 e2 with
  | Lt => Lt
  | Gt => Gt
  | Eq => Pos.compare_cont Eq m1 m2
  end = Z.compare (scaled m1 e1) (scaled m2 e2).
Proof.
  intros H1 H2.
  pose proof (bounded_mantissa _ _ H1) as Hm1.
  pose proof (bounded_mantissa _ _ H2) as Hm2.
  pose proof (bounded_spec _ _ H1) as (_ & He1 & _).
  pose proof (bounded_spec _ _ H2) as (_ & He2 & _).
  unfold scaled.
  replace (e1 + 1074) with (e1 - -1074) by lia.
  replace (e2 + 1074) with (e2 - -1074) by lia.
  destruct (Z.compare_spec e1 e2) as [Heq|Hlt|Hgt].
  - subst e2. change (Pos.compare_cont Eq m1 m2) with (Z.compare (Zpos m1) (Zpos m2)).
    pose proof (pow2_pos (e1 - -1074) ltac:(lia)).
    apply Zmult_compare_compat_r. lia.
  - symmetry. apply Z.compare_lt_iff.
    apply normal_above; try lia. apply (bounded_normal _ _ H2). lia.
  - symmetry. apply Z.compare_gt_iff.
    apply normal_above; try lia. apply (bounded_normal _ _ H1). lia.
Qed.

Lemma iter_xO_spec (m d : positive) :
  Zpos (Pos.iter xO m d) = Zpos m * 2 ^ Zpos d /\
  Zpos (digits2_pos (Pos.iter xO m d)) = Zpos (digits2_pos m) + Zpos d.
Proof.
  induction d as [|d [IH1 IH2]] using Pos.peano_ind.
  - simpl. split; lia.
  - rewrite Pos.iter_succ. rewrite Pos2Z.inj_xO, IH1. simpl digits2_pos.
    rewrite !Pos2Z.inj_succ, IH2, Z.pow_succ_r by lia. split; lia.
Qed.

(** [shl_align] keeps the value and lowers the exponent to the target. *)
Lemma shl_align_spec (m : positive) (e e' : Z) :
  let r := shl_align m e e' in
  snd r = Z.min e e' /\
  Zpos (fst r) = Zpos m * 2 ^ (e - Z.min e e') /\
  Zpos (digits2_pos (fst r)) = Zpos (digits2_pos m) + (e - Z.min e e').
Proof.
  unfold shl_align. destruct (e' - e) as [|d|d] eqn:Ed; cbv zeta; cbn [fst snd].
  - replace (Z.min e e') with e by lia. rewrite Z.sub_diag, Z.pow_0_r. lia.
  - replace (Z.min e e') with e by lia. rewrite Z.sub_diag, Z.pow_0_r. lia.
  - replace (Z.min e e') with e' by lia.
    replace (e - e') with (Zpos d) by lia.
    destruct (iter_xO_spec m d) as [H1 H2]. rewrite H1, H2. lia.
Qed.

(** ** Rounding an integer mantissa *)

(** [binary_round] first aligns the mantissa, keeping the value. *)
Lemma binary_round_aligned (sx : bool) (m : positive) (e : Z) :
  -1074 <= e ->
  exists mz ez,
    binary_round prec emax sx m e
    = binary_round_aux prec emax sx (Zpos mz) ez loc_Exact /\
    -1074 <= ez /\
    ez <= fexp64 (Zdigits2 (Zpos mz) + ez) /\
    Zpos mz * 2 ^ (ez + 1074) = Zpos m * 2 ^ (e + 1074).
Proof.
  intros He. unfold binary_round. rewrite fexp64_eq.
  pose proof (shl_align_spec m e (fexp64 (Zpos (digits2_pos m) + e))) as Hs.
  destruct (shl_align m e (fexp64 (Zpos (digits2_pos m) + e))) as [mz ez].
  cbv zeta in Hs. cbn [fst snd] in Hs. destruct Hs as (Hez & Hmz & Hdz).
  assert (Hfe : -1074 <= fexp64 (Zpos (digits2_pos m) + e)) by (unfold fexp64; lia).
  exists mz, ez. split; [reflexivity|]. split; [lia|]. split.
  - simpl Zdigits2. rewrite Hdz.
    replace (Zpos (digits2_pos m) + (e - Z.min e (fexp64 (Zpos (digits2_pos m) + e))) + ez)
      with (Zpos (digits2_pos m) + e) by lia.
    lia.
  - rewrite Hmz, <- Z.mul_assoc, <- Z.pow_add_r by lia.
    do 2 f_equal. lia.
Qed.

Lemma binary_round_le (sx : bool) (m : positive) (e mF eF : Z) :
  -1074 <= e ->
  0 < mF < 2 ^ 53 -> -1074 <= eF <= 971 ->
  Zpos m * 2 ^ (e + 1074) <= mF * 2 ^ (eF + 1074) ->
  fin_le (binary_round prec emax sx m e) (mF * 2 ^ (eF + 1074)).
Proof.
  intros He HmF HeF Hle.
  destruct (binary_round_aligned sx m e He) as (mz & ez & -> & Hez & H0 & Hv).
  apply (binary_round_aux_le sx (Zpos mz) ez loc_Exact mF eF (-1074));
    try lia; try assumption.
  - replace (ez - -1074) with (ez + 1074) by lia.
    replace (eF - -1074) with (eF + 1074) by lia.
    rewrite Hv. exact Hle.
  - intros Hc. congruence.
Qed.

Lemma binary_round_ge (sx : bool) (m : positive) (e mG eG : Z) :
  -1074 <= e ->
  0 < mG < 2 ^ 53 -> -1074 <= eG <= 971 ->
  mG * 2 ^ (eG + 1074) <= Zpos m * 2 ^ (e + 1074) ->
  fin_ge (binary_round prec emax sx m e) (mG * 2 ^ (eG + 1074)).
Proof.
  intros He HmG HeG Hle.
  destruct (binary_round_aligned sx m e He) as (mz & ez & -> & Hez & H0 & Hv).
  apply (binary_round_aux_ge sx (Zpos mz) ez loc_Exact mG eG (-1074));
    try lia; try assumption.
  replace (ez - -1074) with (ez + 1074) by lia.
  replace (eG - -1074) with (eG + 1074) by lia.
  rewrite Hv. exact Hle.
Qed.

(** [binary_normalize] on a signed integer. *)
Lemma binary_normalize_le (z ez mF eF : Z) :
  -1074 <= ez ->
  0 < mF < 2 ^ 53 -> -1074 <= eF <= 971 ->
  Z.abs z * 2 ^ (ez + 1074) <= mF * 2 ^ (eF + 1074) ->
  fin_le (binary_normalize prec emax z ez false) (mF * 2 ^ (eF + 1074)).
Proof.
  intros Hez HmF HeF Hle. unfold binary_normalize.
  destruct z as [|p|p]; [exact I| |]; apply binary_round_le; assumption.
Qed.

Lemma binary_normalize_ge (z ez mG eG : Z) :
  -1074 <= ez ->
  0 < mG < 2 ^ 53 -> -1074 <= eG <= 971 ->
  mG * 2 ^ (eG + 1074) <= Z.abs z * 2 ^ (ez + 1074) ->
  fin_ge (binary_normalize prec emax z ez false) (mG * 2 ^ (eG + 1074)).
Proof.
  intros Hez HmG HeG Hle. unfold binary_normalize.
  destruct z as [|p|p]; [|apply binary_round_ge; assumption ..].
  exfalso. pose proof (pow2_pos (eG + 1074) ltac:(lia)) as HP.
  assert (0 < mG * 2 ^ (eG + 1074)) by (apply Z.mul_pos_pos; lia).
  simpl in Hle. lia.
Qed.

(** Rounding a canonical number, possibly written with trailing zero
    bits, returns it. *)
Lemma binary_round_aux_exact (sx : bool) (m : positive) (ex n : Z) :
  0 <= n ->
  bounded prec emax m (ex + n) = true ->
  binary_round_aux prec emax sx (Zpos m * 2 ^ n) ex loc_Exact
  = S754_finite sx m (ex + n).
Proof.
  intros Hn Hb.
  pose proof (bounded_spec _ _ Hb) as (Hd & He & Hc).
  pose proof (pow2_pos n Hn) as Hpn.
  destruct (digits2_pos_bounds m) as [Hdl Hdu].
  assert (Hdig : Zdigits2 (Zpos m * 2 ^ n) = Zpos (digits2_pos m) + n).
  { apply Z.le_antisymm.
    - apply Zdigits2_le; [nia|]. rewrite Z.pow_add_r by lia. nia.
    - apply Zdigits2_ge; [nia|].
      replace (Zpos (digits2_pos m) + n - 1) with (Zpos (digits2_pos m) - 1 + n) by lia.
      rewrite Z.pow_add_r by lia. nia. }
  unfold binary_round_aux.
  destruct (shr_fexp_spec (Zpos m * 2 ^ n) ex loc_Exact ltac:(nia))
    as (mrs1 & Hs1 & Hm1 & Hi1).
  rewrite Hs1. clear Hs1. rewrite Hdig in *.
  assert (Hf : fexp64 (Zpos (digits2_pos m) + n + ex) = ex + n) by (unfold fexp64; lia).
  rewrite Hf in *. replace (Z.max ex (ex + n)) with (ex + n) in * by lia.
  replace (ex + n - ex) with n in * by lia.
  rewrite Z.div_mul in Hm1 by lia.
  assert (Hin : inexact mrs1 = false).
  { destruct (inexact mrs1); [|reflexivity].
    destruct (proj1 Hi1 eq_refl) as [Hc1|Hc1]; [congruence|lia]. }
  rewrite round_nearest_even_exact by exact Hin. rewrite Hm1.
  destruct (shr_fexp_spec (Zpos m) (ex + n) loc_Exact ltac:(lia))
    as (mrs2 & Hs2 & Hm2 & _).
  rewrite Hs2. clear Hs2. simpl Zdigits2 in *.
  assert (Hf2 : fexp64 (Zpos (digits2_pos m) + (ex + n)) = ex + n) by (unfold fexp64; lia).
  rewrite Hf2 in *. rewrite Z.max_id in *.
  rewrite Z.sub_diag, Z.pow_0_r, Z.div_1_r in Hm2. rewrite Hm2.
  assert (Hleb : (ex + n <=? emax - prec) = true).
  { apply Z.leb_le. change (emax - prec) with 971. lia. }
  rewrite Hleb. reflexivity.
Qed.

(** ** Subtraction *)

(** The difference of two finite numbers is the rounding of the difference
    of their mantissas, once aligned on the smaller exponent. *)
Lemma SFsub_aligned (sx : bool) (mx : positive) (ex : Z)
    (sc : bool) (mc : positive) (ec : Z) :
  -1074 <= ex -> -1074 <= ec ->
  exists X C ez,
    SF64sub (S754_finite sx mx ex) (S754_finite sc mc ec)
    = binary_normalize prec emax (cond_Zopp sx X - cond_Zopp sc C) ez false /\
    -1074 <= ez /\ 0 < X /\ 0 < C /\
    X * 2 ^ (ez + 1074) = scaled mx ex /\
    C * 2 ^ (ez + 1074) = scaled mc ec.
Proof.
  intros Hex Hec. unfold SF64sub, SFsub. cbv zeta.
  remember (Z.min ex ec) as ez eqn:Eez.
  destruct (shl_align_spec mx ex ez) as (_ & HX & _).
  destruct (shl_align_spec mc ec ez) as (_ & HC & _).
  replace (Z.min ex ez) with ez in HX by lia.
  replace (Z.min ec ez) with ez in HC by lia.
  exists (Zpos (fst (shl_align mx ex ez))), (Zpos (fst (shl_align mc ec ez))), ez.
  split; [reflexivity|]. split; [lia|]. split; [lia|]. split; [lia|].
  unfold scaled. rewrite HX, HC, <- !Z.mul_assoc, <- !Z.pow_add_r by lia.
  split; do 2 f_equal; lia.
Qed.

(** A sample between the edges is at most a centre away from the
    centre. *)
Lemma SFsub_within (mx : positive) (ex : Z) (mc : positive) (ec : Z) :
  bounded prec emax mx ex = true ->
  bounded prec emax mc ec = true ->
  scaled mx ex <= 2 * scaled mc ec ->
  fin_le (SF64sub (S754_finite false mx ex) (S754_finite false mc ec)) (scaled mc ec).
Proof.
  intros Hbx Hbc Hle.
  pose proof (bounded_spec _ _ Hbx) as (_ & Hex & _).
  pose proof (bounded_spec _ _ Hbc) as (_ & Hec & _).
  pose proof (bounded_mantissa _ _ Hbc) as Hmc.
  destruct (SFsub_aligned false mx ex false mc ec (proj1 Hex) (proj1 Hec))
    as (X & C & ez & -> & Hez & HX0 & HC0 & HX & HC).
  pose proof (pow2_pos (ez + 1074) ltac:(lia)) as HP.
  apply binary_normalize_le; try assumption.
  fold (scaled mc ec). rewrite <- HC. rewrite <- HX, <- HC in Hle.
  apply Z.mul_le_mono_nonneg_r; [lia|].
  assert (X <= 2 * C).
  { apply (Z.mul_le_mono_pos_r _ _ (2 ^ (ez + 1074))); [exact HP|lia]. }
  simpl cond_Zopp. lia.
Qed.

(** A sample at or beyond the far edge is at least a centre away. *)
Lemma SFsub_beyond_far (mx : positive) (ex : Z) (mc : positive) (ec : Z) :
  bounded prec emax mx ex = true ->
  bounded prec emax mc ec = true ->
  2 * scaled mc ec <= scaled mx ex ->
  fin_ge (SF64sub (S754_finite false mx ex) (S754_finite false mc ec)) (scaled mc ec).
Proof.
  intros Hbx Hbc Hle.
  pose proof (bounded_spec _ _ Hbx) as (_ & Hex & _).
  pose proof (bounded_spec _ _ Hbc) as (_ & Hec & _).
  pose proof (bounded_mantissa _ _ Hbc) as Hmc.
  destruct (SFsub_aligned false mx ex false mc ec (proj1 Hex) (proj1 Hec))
    as (X & C & ez & -> & Hez & HX0 & HC0 & HX & HC).
  pose proof (pow2_pos (ez + 1074) ltac:(lia)) as HP.
  apply binary_normalize_ge; try assumption.
  fold (scaled mc ec). rewrite <- HC. rewrite <- HX, <- HC in Hle.
  apply Z.mul_le_mono_nonneg_r; [lia|].
  assert (2 * C <= X).
  { apply (Z.mul_le_mono_pos_r _ _ (2 ^ (ez + 1074))); [exact HP|lia]. }
  simpl cond_Zopp. lia.
Qed.

(** So is a negative sample. *)
Lemma SFsub_beyond_near (mx : positive) (ex : Z) (mc : positive) (ec : Z) :
  bounded prec emax mx ex = true ->
  bounded prec emax mc ec = true ->
  fin_ge (SF64sub (S754_finite true mx ex) (S754_finite false mc ec)) (scaled mc ec).
Proof.
  intros Hbx Hbc.
  pose proof (bounded_spec _ _ Hbx) as (_ & Hex & _).
  pose proof (bounded_spec _ _ Hbc) as (_ & Hec & _).
  pose proof (bounded_mantissa _ _ Hbc) as Hmc.
  destruct (SFsub_aligned true mx ex false mc ec (proj1 Hex) (proj1 Hec))
    as (X & C & ez & -> & Hez & HX0 & HC0 & HX & HC).
  apply binary_normalize_ge; try assumption.
  fold (scaled mc ec). rewrite <- HC.
  apply Z.mul_le_mono_nonneg_r; [lia|].
  simpl cond_Zopp. lia.
Qed.

(** ** Division *)

Lemma div_eucl_div_mod (a b : Z) : Z.div_eucl a b = (a / b, a mod b).
Proof. unfold Z.div, Z.modulo. now destruct (Z.div_eucl a b). Qed.

Lemma new_location_inexact (nb r : Z) :
  new_location nb r <> loc_Exact -> r <> 0.
Proof.
  intros H Hr. apply H. subst r. unfold new_location.
  destruct (Z.even nb); reflexivity.
Qed.

(** The arithmetic of the quotient: [md * 2^s = mc * q + r] with the
    dividend at most the divisor. *)
Lemma quotient_below_one (md mc q r s e' k ed ec : Z) :
  0 < md -> 0 < mc -> 0 <= s ->
  md * 2 ^ s = mc * q + r -> 0 <= r < mc ->
  k <= e' -> k <= -1074 -> -1074 <= ec -> -1074 <= ed ->
  s + e' = ed - ec ->
  md * 2 ^ (ed + 1074) <= mc * 2 ^ (ec + 1074) ->
  q * 2 ^ (e' - k) <= 2 ^ (- k) /\
  (r <> 0 -> q * 2 ^ (e' - k) < 2 ^ (- k)).
Proof.
  intros Hmd Hmc Hs Hdm Hr Hk Hk' Hec Hed Hse Hle.
  pose proof (pow2_pos (e' - k) ltac:(lia)) as HA.
  pose proof (pow2_pos (ec + 1074) ltac:(lia)) as HB.
  pose proof (pow2_pos (- k) ltac:(lia)) as HN.
  assert (Hscale : 2 ^ s * 2 ^ (e' - k) * 2 ^ (ec + 1074)
                   = 2 ^ (ed + 1074) * 2 ^ (- k)).
  { rewrite <- !Z.pow_add_r by lia. f_equal. lia. }
  assert (HcB : 0 < mc * 2 ^ (ec + 1074)) by (apply Z.mul_pos_pos; assumption).
  assert (HAB : 0 < 2 ^ (e' - k) * 2 ^ (ec + 1074)) by (apply Z.mul_pos_pos; assumption).
  assert (Hup : md * 2 ^ s * (2 ^ (e' - k) * 2 ^ (ec + 1074))
                <= mc * 2 ^ (ec + 1074) * 2 ^ (- k)).
  { replace (md * 2 ^ s * (2 ^ (e' - k) * 2 ^ (ec + 1074)))
      with (md * (2 ^ s * 2 ^ (e' - k) * 2 ^ (ec + 1074))) by ring.
    rewrite Hscale.
    replace (md * (2 ^ (ed + 1074) * 2 ^ (- k)))
      with (md * 2 ^ (ed + 1074) * 2 ^ (- k)) by ring.
    apply Z.mul_le_mono_nonneg_r; [apply Z.lt_le_incl; exact HN|exact Hle]. }
  assert (Hqm : q * mc <= md * 2 ^ s) by (rewrite Hdm; lia).
  assert (Hqm' : r <> 0 -> q * mc < md * 2 ^ s) by (intros; rewrite Hdm; lia).
  split; [|intros Hr0].
  - apply (Z.mul_le_mono_pos_r _ _ (mc * 2 ^ (ec + 1074))); [exact HcB|].
    replace (q * 2 ^ (e' - k) * (mc * 2 ^ (ec + 1074)))
      with (q * mc * (2 ^ (e' - k) * 2 ^ (ec + 1074))) by ring.
    replace (2 ^ (- k) * (mc * 2 ^ (ec + 1074)))
      with (mc * 2 ^ (ec + 1074) * 2 ^ (- k)) by ring.
    apply Z.le_trans with (2 := Hup).
    apply Z.mul_le_mono_nonneg_r; [apply Z.lt_le_incl; exact HAB|exact Hqm].
  - apply (Z.mul_lt_mono_pos_r (mc * 2 ^ (ec + 1074))); [exact HcB|].
    replace (q * 2 ^ (e' - k) * (mc * 2 ^ (ec + 1074)))
      with (q * mc * (2 ^ (e' - k) * 2 ^ (ec + 1074))) by ring.
    replace (2 ^ (- k) * (mc * 2 ^ (ec + 1074)))
      with (mc * 2 ^ (ec + 1074) * 2 ^ (- k)) by ring.
    apply Z.lt_le_trans with (2 := Hup).
    apply Z.mul_lt_mono_pos_r; [exact HAB|exact (Hqm' Hr0)].
Qed.

(** The arithmetic of the quotient when the dividend is at least the
    divisor. *)
Lemma quotient_above_one (md mc q r s e' k ed ec : Z) :
  0 < md -> 0 < mc -> 0 <= s ->
  md * 2 ^ s = mc * q + r -> 0 <= r < mc ->
  k <= e' -> k <= -1074 -> -1074 <= ec -> -1074 <= ed ->
  s + e' = ed - ec ->
  (0 < e' -> 1 <= q) ->
  mc * 2 ^ (ec + 1074) <= md * 2 ^ (ed + 1074) ->
  2 ^ (- k) <= q * 2 ^ (e' - k).
Proof.
  intros Hmd Hmc Hs Hdm Hr Hk Hk' Hec Hed Hse Hbig Hle.
  pose proof (pow2_pos (e' - k) ltac:(lia)) as HA.
  destruct (Z_lt_le_dec 0 e') as [Hpos|Hneg].
  - specialize (Hbig Hpos).
    apply Z.le_trans with (1 * 2 ^ (e' - k)).
    + rewrite Z.mul_1_l. apply Z.pow_le_mono_r; lia.
    + apply Z.mul_le_mono_nonneg_r; [apply Z.lt_le_incl; exact HA|exact Hbig].
  - pose proof (pow2_pos (- e') ltac:(lia)) as HE.
    pose proof (pow2_pos (ec + 1074) ltac:(lia)) as HB.
    rewrite (pow2_split (- e') (e' - k) (- k)) by lia.
    apply Z.mul_le_mono_nonneg_r; [apply Z.lt_le_incl; exact HA|].
    assert (Hge : mc * 2 ^ (- e') <= md * 2 ^ s).
    { apply (Z.mul_le_mono_pos_r _ _ (2 ^ (ec + 1074))); [exact HB|].
      replace (md * 2 ^ s * 2 ^ (ec + 1074)) with (md * (2 ^ s * 2 ^ (ec + 1074))) by ring.
      rewrite <- Z.pow_add_r by lia.
      replace (s + (ec + 1074)) with (ed + 1074 + - e') by lia.
      rewrite (Z.pow_add_r 2 (ed + 1074) (- e')) by lia.
      replace (mc * 2 ^ (- e') * 2 ^ (ec + 1074))
        with (mc * 2 ^ (ec + 1074) * 2 ^ (- e')) by ring.
      rewrite Z.mul_assoc.
      apply Z.mul_le_mono_nonneg_r; [apply Z.lt_le_incl; exact HE|exact Hle]. }
    rewrite Hdm in Hge.
    destruct (Z_lt_le_dec q (2 ^ (- e'))) as [Hlt|]; [exfalso|assumption].
    assert (mc * (q + 1) <= mc * 2 ^ (- e')).
    { apply Z.mul_le_mono_nonneg_l; lia. }
    lia.
Qed.

(** With [s] extra bits the quotient has all its 53 digits. *)
Lemma quotient_normal (md mc d1 d2 s : Z) :
  0 < d1 <= 53 -> 0 < d2 ->
  2 ^ (d1 - 1) <= md -> 0 < mc < 2 ^ d2 ->
  53 - d1 + d2 <= s ->
  2 ^ 52 <= md * 2 ^ s / mc.
Proof.
  intros Hd1 Hd2 Hmd Hmc Hs.
  pose proof (pow2_pos s ltac:(lia)) as HS.
  apply Z.div_le_lower_bound; [lia|].
  apply Z.le_trans with (2 ^ d2 * 2 ^ 52).
  { apply Z.mul_le_mono_nonneg_r; [apply Z.pow_nonneg|]; lia. }
  rewrite <- Z.pow_add_r by lia.
  apply Z.le_trans with (2 ^ (d1 - 1) * 2 ^ s).
  { rewrite <- Z.pow_add_r by lia. apply Z.pow_le_mono_r; lia. }
  apply Z.mul_le_mono_nonneg_r; [apply Z.lt_le_incl; exact HS|exact Hmd].
Qed.

(** What [SFdiv_core_binary] returns on two canonical numbers: a quotient
    [q] of [md * 2^s] by [mc] with its remainder, at an exponent for which
    [q] has digits enough. *)
Lemma SFdiv_core_spec (md : positive) (ed : Z) (mc : positive) (ec : Z) :
  bounded prec emax md ed = true ->
  bounded prec emax mc ec = true ->
  exists q r e' s,
    SFdiv_core_binary prec emax (Zpos md) ed (Zpos mc) ec
    = (q, e', new_location (Zpos mc) r) /\
    0 <= s /\ s + e' = ed - ec /\
    Zpos md * 2 ^ s = Zpos mc * q + r /\ 0 <= r < Zpos mc /\
    0 <= q /\ (-1074 < e' -> 2 ^ 52 <= q) /\
    e' <= fexp64 (Zdigits2 q + e').
Proof.
  intros Hbd Hbc.
  pose proof (bounded_spec _ _ Hbd) as (Hdd & Hed & _).
  pose proof (bounded_spec _ _ Hbc) as (Hdc & Hec & _).
  destruct (digits2_pos_bounds md) as [Hmdl Hmdu].
  destruct (digits2_pos_bounds mc) as [Hmcl Hmcu].
  unfold SFdiv_core_binary. cbv zeta. rewrite fexp64_eq.
  simpl Zdigits2.
  remember (Zpos (digits2_pos md)) as d1 eqn:Ed1.
  remember (Zpos (digits2_pos mc)) as d2 eqn:Ed2.
  remember (d1 + ed - (d2 + ec)) as t eqn:Et.
  remember (Z.min (fexp64 t) (ed - ec)) as e' eqn:Ee'.
  remember (ed - ec - e') as s eqn:Es.
  assert (Hs : 0 <= s) by lia.
  assert (Hm' : match s with
                | 0 => Zpos md
                | Zpos _ => Z.shiftl (Zpos md) s
                | Zneg _ => 0
                end = Zpos md * 2 ^ s).
  { destruct s as [|p|p]; [rewrite Z.pow_0_r; lia| |lia].
    apply Z.shiftl_mul_pow2. lia. }
  rewrite Hm'. clear Hm'. rewrite div_eucl_div_mod.
  pose proof (pow2_pos s Hs) as HS.
  pose proof (Z.div_mod (Zpos md * 2 ^ s) (Zpos mc) ltac:(lia)) as Hdm.
  pose proof (Z.mod_pos_bound (Zpos md * 2 ^ s) (Zpos mc) ltac:(lia)) as Hmod.
  assert (Hq : 0 <= Zpos md * 2 ^ s / Zpos mc).
  { apply Z.div_pos; [apply Z.mul_nonneg_nonneg|]; lia. }
  assert (Hq52 : -1074 < e' -> 2 ^ 52 <= Zpos md * 2 ^ s / Zpos mc).
  { intros Hhigh. apply (quotient_normal _ _ d1 d2); try lia.
    unfold fexp64 in Ee'. lia. }
  exists (Zpos md * 2 ^ s / Zpos mc), ((Zpos md * 2 ^ s) mod Zpos mc), e', s.
  remember (Zpos md * 2 ^ s / Zpos mc) as q eqn:Eq.
  remember ((Zpos md * 2 ^ s) mod Zpos mc) as r eqn:Er.
  repeat (split; [first [reflexivity|assumption|lia]|]).
  destruct (Z_le_gt_dec e' (-1074)) as [Hlow|Hhigh].
  - apply Z.le_trans with (1 := Hlow). unfold fexp64. apply Z.le_max_r.
  - assert (Hq52' : 2 ^ 52 <= q) by (apply Hq52; lia).
    assert (53 <= Zdigits2 q) by (apply Zdigits2_ge; [lia|exact Hq52']).
    unfold fexp64. lia.
Qed.

Lemma one_scaled (k : Z) : k <= -52 -> Zpos m_pow2 * 2 ^ (-52 - k) = 2 ^ (- k).
Proof.
  intros Hk. change (Zpos m_pow2) with (2 ^ 52).
  rewrite <- Z.pow_add_r by lia. f_equal. lia.
Qed.

(** A dividend of magnitude at most the divisor gives a quotient of
    magnitude at most 1. *)
Lemma SFdiv_within (sd : bool) (md : positive) (ed : Z)
    (sc : bool) (mc : positive) (ec : Z) :
  bounded prec emax md ed = true ->
  bounded prec emax mc ec = true ->
  scaled md ed <= scaled mc ec ->
  fin_le (SF64div (S754_finite sd md ed) (S754_finite sc mc ec)) (scaled m_pow2 (-52)).
Proof.
  intros Hbd Hbc Hle.
  pose proof (bounded_spec _ _ Hbd) as (_ & Hed & _).
  pose proof (bounded_spec _ _ Hbc) as (_ & Hec & _).
  destruct (SFdiv_core_spec md ed mc ec Hbd Hbc)
    as (q & r & e' & s & Hcore & Hs & Hse & Hdm & Hr & Hq & _ & H0).
  unfold SF64div, SFdiv. rewrite Hcore.
  remember (Z.min e' (-1074)) as k eqn:Ek.
  assert (Hk1 : k <= e') by lia.
  assert (Hk2 : k <= -1074) by lia.
  destruct (quotient_below_one (Zpos md) (Zpos mc) q r s e' k ed ec)
    as [Hmain Hmain']; try assumption; try reflexivity; try lia.
  rewrite <- (one_scaled k) in Hmain, Hmain' by lia.
  apply (binary_round_aux_le _ q e' _ (Zpos m_pow2) (-52) k);
    try assumption; try lia.
  - split; reflexivity.
  - intros Hloc. apply Hmain'. exact (new_location_inexact _ _ Hloc).
Qed.

(** A dividend of magnitude at least the divisor gives a quotient of
    magnitude at least 1. *)
Lemma SFdiv_beyond (sd : bool) (md : positive) (ed : Z)
    (sc : bool) (mc : positive) (ec : Z) :
  bounded prec emax md ed = true ->
  bounded prec emax mc ec = true ->
  scaled mc ec <= scaled md ed ->
  fin_ge (SF64div (S754_finite sd md ed) (S754_finite sc mc ec)) (scaled m_pow2 (-52)).
Proof.
  intros Hbd Hbc Hle.
  pose proof (bounded_spec _ _ Hbd) as (_ & Hed & _).
  pose proof (bounded_spec _ _ Hbc) as (_ & Hec & _).
  destruct (SFdiv_core_spec md ed mc ec Hbd Hbc)
    as (q & r & e' & s & Hcore & Hs & Hse & Hdm & Hr & Hq & Hq52 & H0).
  unfold SF64div, SFdiv. rewrite Hcore.
  remember (Z.min e' (-1074)) as k eqn:Ek.
  assert (Hk1 : k <= e') by lia.
  assert (Hk2 : k <= -1074) by lia.
  assert (Hq1 : 0 < e' -> 1 <= q).
  { intros Hpos. apply Z.le_trans with (2 ^ 52); [discriminate|]. apply Hq52. lia. }
  pose proof (quotient_above_one (Zpos md) (Zpos mc) q r s e' k ed ec
                ltac:(reflexivity) ltac:(reflexivity) Hs Hdm Hr Hk1 Hk2
                (proj1 Hec) (proj1 Hed) Hse Hq1 Hle) as Hmain.
  rewrite <- (one_scaled k) in Hmain by lia.
  apply (binary_round_aux_ge _ q e' _ (Zpos m_pow2) (-52) k);
    try assumption; try lia.
  split; reflexivity.
Qed.

(** ** Multiplication by 8 *)

(** The product of a canonical mantissa with [2^52] has digits enough for
    the exponent of the product with 8, and carries the value over. *)
Lemma mul_eight_aligned (mq : positive) (eq : Z) :
  bounded prec emax mq eq = true ->
  -1123 <= eq + -49 /\
  eq + -49 <= fexp64 (Zdigits2 (Zpos (mq * m_pow2)) + (eq + -49)) /\
  Zpos (mq * m_pow2) * 2 ^ (eq + -49 - -1123) = scaled mq eq * Zpos m_pow2 /\
  Zpos m_pow2 * 2 ^ (-49 - -1123) = scaled m_pow2 (-52) * Zpos m_pow2.
Proof.
  intros Hb.
  pose proof (bounded_spec _ _ Hb) as (_ & Heq & _).
  destruct (digits2_pos_bounds mq) as [Hml _].
  split; [lia|]. split; [|split].
  - assert (Hd : Zpos (digits2_pos mq) + 52 <= Zdigits2 (Zpos (mq * m_pow2))).
    { apply Zdigits2_ge; [lia|].
      rewrite Pos2Z.inj_mul. change (Zpos m_pow2) with (2 ^ 52).
      replace (Zpos (digits2_pos mq) + 52 - 1) with (Zpos (digits2_pos mq) - 1 + 52) by lia.
      rewrite Z.pow_add_r by lia.
      apply Z.mul_le_mono_nonneg_r; [lia|exact Hml]. }
    unfold fexp64. lia.
  - unfold scaled. rewrite Pos2Z.inj_mul.
    replace (eq + -49 - -1123) with (eq + 1074) by lia. ring.
  - unfold scaled.
    replace (-49 - -1123) with (-52 + 1074 + 52) by lia.
    rewrite (Z.pow_add_r 2 (-52 + 1074) 52) by lia.
    change (2 ^ 52) with (Zpos m_pow2). ring.
Qed.

(** Multiplying a number of magnitude at most 1 by [8] or [-8]. *)
Lemma SFmul_eight_within (sq : bool) (mq : positive) (eq : Z) (s8 : bool) :
  bounded prec emax mq eq = true ->
  scaled mq eq <= scaled m_pow2 (-52) ->
  fin_le (SF64mul (S754_finite sq mq eq) (S754_finite s8 m_pow2 (-49)))
         (scaled m_pow2 (-49)).
Proof.
  intros Hb Hle.
  destruct (mul_eight_aligned mq eq Hb) as (Hk & H0 & Hv & H8).
  unfold SF64mul, SFmul.
  apply (binary_round_aux_le _ _ _ _ (Zpos m_pow2) (-49) (-1123));
    try assumption; try lia.
  - split; reflexivity.
  - rewrite Hv, H8. apply Z.mul_le_mono_nonneg_r; [lia|exact Hle].
  - intros Hc. congruence.
Qed.

(** Multiplying a number of magnitude at least 1 by [8] or [-8]. *)
Lemma SFmul_eight_beyond (sq : bool) (mq : positive) (eq : Z) (s8 : bool) :
  bounded prec emax mq eq = true ->
  scaled m_pow2 (-52) <= scaled mq eq ->
  fin_ge (SF64mul (S754_finite sq mq eq) (S754_finite s8 m_pow2 (-49)))
         (scaled m_pow2 (-49)).
Proof.
  intros Hb Hle.
  destruct (mul_eight_aligned mq eq Hb) as (Hk & H0 & Hv & H8).
  unfold SF64mul, SFmul.
  apply (binary_round_aux_ge _ _ _ _ (Zpos m_pow2) (-49) (-1123));
    try assumption; try lia.
  - split; reflexivity.
  - rewrite Hv, H8. apply Z.mul_le_mono_nonneg_r; [lia|exact Hle].
Qed.

(** ** Halving *)

(** Halving a number of at least [2^-1021] is exact. *)
Lemma SFdiv_two_exact (m : positive) (e : Z) :
  bounded prec emax m e = true ->
  -1073 <= e ->
  SF64div (S754_finite false m e) (S754_finite false m_pow2 (-51))
  = S754_finite false m (e - 1).
Proof.
  intros Hb He.
  pose proof (bounded_spec _ _ Hb) as (_ & Hee & [Hc|Hd]); [lia|].
  assert (Hb' : bounded prec emax m (e - 1) = true).
  { unfold bounded, canonical_mantissa. rewrite fexp64_eq, Hd.
    change (emax - prec) with 971. unfold fexp64.
    apply andb_true_iff. split; [apply Z.eqb_eq|apply Z.leb_le]; lia. }
  unfold SF64div, SFdiv, SFdiv_core_binary. cbv zeta. rewrite fexp64_eq.
  simpl Zdigits2. rewrite Hd. change (Zpos (digits2_pos m_pow2)) with 53.
  set (e' := Z.min (fexp64 (53 + e - (53 + -51))) (e - -51)).
  set (s := e - -51 - e').
  assert (Hs : 52 <= s <= 53) by (unfold s, e', fexp64; lia).
  assert (Hm' : match s with
                | 0 => Zpos m
                | Zpos _ => Z.shiftl (Zpos m) s
                | Zneg _ => 0
                end = Zpos m * 2 ^ (s - 52) * Zpos m_pow2).
  { destruct s as [|p|p] eqn:Es; try lia.
    rewrite Z.shiftl_mul_pow2 by lia. change (Zpos m_pow2) with (2 ^ 52).
    rewrite <- Z.mul_assoc, <- Z.pow_add_r by lia. do 2 f_equal. lia. }
  rewrite Hm'. clear Hm'. rewrite div_eucl_div_mod.
  rewrite Z.div_mul, Z.mod_mul by lia.
  change (new_location (Zpos m_pow2) 0) with loc_Exact.
  replace (xorb false false) with false by reflexivity.
  replace (e - 1) with (e' + (s - 52)) by (unfold s; lia).
  apply binary_round_aux_exact; [lia|].
  replace (e' + (s - 52)) with (e - 1) by (unfold s; lia). exact Hb'.
Qed.

(** ** Comparisons *)

(** Comparison of a zero or finite number with a positive bound. *)
Lemma SFleb_of_fin_le (f : spec_float) (mF : positive) (eF : Z) :
  valid_binary f = true ->
  bounded prec emax mF eF = true ->
  fin_le f (scaled mF eF) ->
  SFleb (S754_finite true mF eF) f = true /\ SFleb f (S754_finite false mF eF) = true.
Proof.
  intros Hv HbF Hf.
  destruct f as [s|s| |s m e]; simpl in Hf; try contradiction.
  - destruct s; split; reflexivity.
  - simpl in Hv. destruct Hf as [_ Hle].
    pose proof (compare_bounded m e mF eF Hv HbF) as Hc1.
    pose proof (compare_bounded mF eF m e HbF Hv) as Hc2.
    unfold SFleb, SFcompare. destruct s.
    + split; [|reflexivity].
      destruct (Z.compare eF e) eqn:Ee; cbv beta iota in Hc2 |- *.
      * rewrite Hc2.
        destruct (Z.compare_spec (scaled mF eF) (scaled m e)); try reflexivity; lia.
      * symmetry in Hc2. change (scaled mF eF < scaled m e) in Hc2. lia.
      * reflexivity.
    + split; [reflexivity|].
      rewrite Hc1.
      destruct (Z.compare_spec (scaled m e) (scaled mF eF)); try reflexivity; lia.
Qed.

Lemma SFleb_of_fin_ge (f : spec_float) (mG : positive) (eG : Z) :
  valid_binary f = true ->
  bounded prec emax mG eG = true ->
  fin_ge f (scaled mG eG) ->
  SFleb (S754_finite false mG eG) (SFabs f) = true.
Proof.
  intros Hv HbG Hf.
  destruct f as [s|s| |s m e]; simpl in Hf; try contradiction.
  - reflexivity.
  - simpl in Hv. destruct Hf as [_ Hle].
    unfold SFabs, SFleb, SFcompare.
    rewrite (compare_bounded mG eG m e HbG Hv).
    destruct (Z.compare_spec (scaled mG eG) (scaled m e)); try reflexivity.
    exfalso. lia.
Qed.

(** ** From the primitive operations to their specification *)

(** A side that is finite and at least [2^-1021] is a positive normal
    number, and halving it only lowers its exponent. *)
Lemma size_in_range (W : float) :
  (0x1p-1021 <=? W)%float = true ->
  (W <? infinity)%float = true ->
  exists m e,
    Prim2SF W = S754_finite false m e /\
    bounded prec emax m e = true /\ -1073 <= e.
Proof.
  rewrite FloatAxioms.leb_spec, FloatAxioms.ltb_spec.
  change (Prim2SF 0x1p-1021) with (S754_finite false m_pow2 (-1073)).
  change (Prim2SF infinity) with (S754_infinity false).
  pose proof (Prim2SF_valid W) as Hv.
  destruct (Prim2SF W) as [s|s| |s m e]; try discriminate.
  - destruct s; discriminate.
  - destruct s; [discriminate|]. intros Hle _.
    exists m, e. split; [reflexivity|]. split; [exact Hv|].
    unfold SFleb, SFcompare in Hle.
    destruct (Z.compare_spec (-1073) e); try lia; discriminate.
Qed.

Lemma scaled_double (m : positive) (e : Z) :
  -1073 <= e -> scaled m e = 2 * scaled m (e - 1).
Proof.
  intros He. unfold scaled.
  replace (e + 1074) with (Z.succ (e - 1 + 1074)) by lia.
  rewrite Z.pow_succ_r by lia. ring.
Qed.

Lemma centre_exact (W : float) :
  (0x1p-1021 <=? W)%float = true ->
  (W <? infinity)%float = true ->
  exists m e,
    Prim2SF W = S754_finite false m e /\
    bounded prec emax m e = true /\
    Prim2SF (W / 2)%float = S754_finite false m (e - 1) /\
    bounded prec emax m (e - 1) = true /\
    scaled m e = 2 * scaled m (e - 1).
Proof.
  intros HW1 HW2.
  destruct (size_in_range W HW1 HW2) as (m & e & HW & Hb & He).
  assert (Hc : Prim2SF (W / 2)%float = S754_finite false m (e - 1)).
  { rewrite FloatAxioms.div_spec, HW.
    change (Prim2SF 2) with (S754_finite false m_pow2 (-51)).
    apply SFdiv_two_exact; assumption. }
  pose proof (Prim2SF_valid (W / 2)%float) as Hbc. rewrite Hc in Hbc.
  exists m, e. repeat split; try assumption. apply scaled_double. exact He.
Qed.

(** A sample between the edges: a zero, or a positive number not larger
    than the side. *)
Lemma sample_in_range (p W : float) (m : positive) (e : Z) :
  Prim2SF W = S754_finite false m e ->
  bounded prec emax m e = true ->
  (0 <=? p)%float = true ->
  (p <=? W)%float = true ->
  (exists s, Prim2SF p = S754_zero s) \/
  (exists mp ep,
     Prim2SF p = S754_finite false mp ep /\
     bounded prec emax mp ep = true /\ scaled mp ep <= scaled m e).
Proof.
  intros HW Hb. rewrite !FloatAxioms.leb_spec, HW.
  change (Prim2SF 0) with (S754_zero false).
  pose proof (Prim2SF_valid p) as Hv.
  destruct (Prim2SF p) as [s|s| |s mp ep]; try discriminate.
  - intros _ _. left. exists s. reflexivity.
  - destruct s; discriminate.
  - destruct s; [discriminate|]. intros _ Hle. right.
    exists mp, ep. split; [reflexivity|]. split; [exact Hv|].
    unfold SFleb, SFcompare in Hle.
    rewrite (compare_bounded mp ep m e Hv Hb) in Hle.
    destruct (Z.compare_spec (scaled mp ep) (scaled m e)); try lia; discriminate.
Qed.

(** A sample beyond an edge: an infinity, a negative number, or a
    positive number larger than the side. *)
Lemma sample_beyond (p W : float) (m : positive) (e : Z) :
  Prim2SF W = S754_finite false m e ->
  bounded prec emax m e = true ->
  ((p <? 0) || (W <? p))%float = true ->
  (exists s, Prim2SF p = S754_infinity s) \/
  (exists mp ep, Prim2SF p = S754_finite true mp ep /\
                 bounded prec emax mp ep = true) \/
  (exists mp ep, Prim2SF p = S754_finite false mp ep /\
                 bounded prec emax mp ep = true /\ scaled m e <= scaled mp ep).
Proof.
  intros HW Hb. rewrite orb_true_iff, !FloatAxioms.ltb_spec, HW.
  change (Prim2SF 0) with (S754_zero false).
  pose proof (Prim2SF_valid p) as Hv.
  destruct (Prim2SF p) as [s|s| |s mp ep].
  - intros [H|H]; destruct s; discriminate.
  - intros _. left. exists s. reflexivity.
  - intros [H|H]; discriminate.
  - destruct s.
    + intros _. right. left. exists mp, ep. split; [reflexivity|exact Hv].
    + intros [H|H]; [discriminate|]. right. right.
      exists mp, ep. split; [reflexivity|]. split; [exact Hv|].
      unfold SFltb, SFcompare in H.
      rewrite (compare_bounded m e mp ep Hb Hv) in H.
      destruct (Z.compare_spec (scaled m e) (scaled mp ep)); try lia; discriminate.
Qed.

(** The offset divided by the centre and multiplied by [8] or [-8], for
    an offset of magnitude at most the centre. *)
Lemma scale_offset_within (d c k : float) (sc : bool) (mc : positive) (ec : Z) (s8 : bool) :
  Prim2SF c = S754_finite sc mc ec ->
  Prim2SF k = S754_finite s8 m_pow2 (-49) ->
  fin_le (Prim2SF d) (scaled mc ec) ->
  fin_le (Prim2SF ((d / c) * k)%float) (scaled m_pow2 (-49)).
Proof.
  intros Hc Hk Hd.
  pose proof (Prim2SF_valid c) as Hbc. rewrite Hc in Hbc.
  assert (Hq : fin_le (Prim2SF (d / c)%float) (scaled m_pow2 (-52))).
  { rewrite FloatAxioms.div_spec, Hc.
    pose proof (Prim2SF_valid d) as Hvd.
    destruct (Prim2SF d) as [s|s| |s md ed]; simpl in Hd; try contradiction.
    - exact I.
    - apply SFdiv_within; [exact Hvd|exact Hbc|apply Hd]. }
  rewrite FloatAxioms.mul_spec, Hk.
  pose proof (Prim2SF_valid (d / c)%float) as Hvq.
  destruct (Prim2SF (d / c)%float) as [s|s| |s mq eq]; simpl in Hq;
    try contradiction.
  - exact I.
  - apply SFmul_eight_within; [exact Hvq|apply Hq].
Qed.

(** The same for an offset of magnitude at least the centre. *)
Lemma scale_offset_beyond (d c k : float) (sc : bool) (mc : positive) (ec : Z) (s8 : bool) :
  Prim2SF c = S754_finite sc mc ec ->
  Prim2SF k = S754_finite s8 m_pow2 (-49) ->
  fin_ge (Prim2SF d) (scaled mc ec) ->
  fin_ge (Prim2SF ((d / c) * k)%float) (scaled m_pow2 (-49)).
Proof.
  intros Hc Hk Hd.
  pose proof (Prim2SF_valid c) as Hbc. rewrite Hc in Hbc.
  assert (Hq : fin_ge (Prim2SF (d / c)%float) (scaled m_pow2 (-52))).
  { rewrite FloatAxioms.div_spec, Hc.
    pose proof (Prim2SF_valid d) as Hvd.
    destruct (Prim2SF d) as [s|s| |s md ed]; simpl in Hd; try contradiction.
    - exact I.
    - apply SFdiv_beyond; [exact Hvd|exact Hbc|apply Hd]. }
  rewrite FloatAxioms.mul_spec, Hk.
  pose proof (Prim2SF_valid (d / c)%float) as Hvq.
  destruct (Prim2SF (d / c)%float) as [s|s| |s mq eq]; simpl in Hq;
    try contradiction.
  - exact I.
  - apply SFmul_eight_beyond; [exact Hvq|apply Hq].
Qed.

(** One component of the tilt: the offset of the sample [p] from the
    centre [W / 2], divided by the centre and multiplied by [8] or [-8]. *)
Lemma tilt_component_within (p W k : float) (s8 : bool) :
  (0x1p-1021 <=? W)%float = true ->
  (W <? infinity)%float = true ->
  (0 <=? p)%float = true ->
  (p <=? W)%float = true ->
  Prim2SF k = S754_finite s8 m_pow2 (-49) ->
  fin_le (Prim2SF (((p - W / 2) / (W / 2)) * k)%float) (scaled m_pow2 (-49)).
Proof.
  intros HW1 HW2 Hp1 Hp2 Hk.
  destruct (centre_exact W HW1 HW2) as (m & e & HW & Hb & Hc & Hbc & H2).
  apply (scale_offset_within _ _ _ false m (e - 1) s8 Hc Hk).
  rewrite FloatAxioms.sub_spec, Hc.
  destruct (sample_in_range p W m e HW Hb Hp1 Hp2)
    as [[s Hz] | (mp & ep & Hf & Hbp & Hle)].
  - rewrite Hz. simpl. apply bounded_spec in Hbc. split; [lia|lia].
  - rewrite Hf. apply SFsub_within; try assumption. lia.
Qed.

Lemma tilt_component_beyond (p W k : float) (s8 : bool) :
  (0x1p-1021 <=? W)%float = true ->
  (W <? infinity)%float = true ->
  ((p <? 0) || (W <? p))%float = true ->
  Prim2SF k = S754_finite s8 m_pow2 (-49) ->
  fin_ge (Prim2SF (((p - W / 2) / (W / 2)) * k)%float) (scaled m_pow2 (-49)).
Proof.
  intros HW1 HW2 Hp Hk.
  destruct (centre_exact W HW1 HW2) as (m & e & HW & Hb & Hc & Hbc & H2).
  apply (scale_offset_beyond _ _ _ false m (e - 1) s8 Hc Hk).
  rewrite FloatAxioms.sub_spec, Hc.
  destruct (sample_beyond p W m e HW Hb Hp)
    as [[s Hi] | [(mp & ep & Hf & Hbp) | (mp & ep & Hf & Hbp & Hle)]].
  - rewrite Hi. destruct s; exact I.
  - rewrite Hf. apply SFsub_beyond_near; assumption.
  - rewrite Hf. apply SFsub_beyond_far; try assumption. lia.
Qed.

(** Reading the bounds back as comparisons of floats. *)
Lemma fin_le_eight_leb (t : float) :
  fin_le (Prim2SF t) (scaled m_pow2 (-49)) ->
  (-8 <=? t)%float = true /\ (t <=? 8)%float = true.
Proof.
  intros H. rewrite !FloatAxioms.leb_spec.
  change (Prim2SF (-8)) with (S754_finite true m_pow2 (-49)).
  change (Prim2SF 8) with (S754_finite false m_pow2 (-49)).
  apply SFleb_of_fin_le; [apply Prim2SF_valid|reflexivity|exact H].
Qed.

Lemma fin_le_eight_abs (t : float) :
  fin_le (Prim2SF t) (scaled m_pow2 (-49)) -> (abs t <=? 8)%float = true.
Proof.
  intros H. rewrite FloatAxioms.leb_spec, FloatAxioms.abs_spec.
  change (Prim2SF 8) with (S754_finite false m_pow2 (-49)).
  pose proof (Prim2SF_valid t) as Hv.
  destruct (Prim2SF t) as [s|s| |s m e]; simpl in H; try contradiction.
  - reflexivity.
  - apply (SFleb_of_fin_le (S754_finite false m e)); [exact Hv|reflexivity|exact H].
Qed.

Lemma fin_le_isFinite (t : float) (F : Z) :
  fin_le (Prim2SF t) F -> (abs t <? infinity)%float = true.
Proof.
  intros H. rewrite FloatAxioms.ltb_spec, FloatAxioms.abs_spec.
  change (Prim2SF infinity) with (S754_infinity false).
  destruct (Prim2SF t) as [s|s| |s m e]; simpl in H; try contradiction; reflexivity.
Qed.

Lemma fin_ge_eight_abs (t : float) :
  fin_ge (Prim2SF t) (scaled m_pow2 (-49)) -> (8 <=? abs t)%float = true.
Proof.
  intros H. rewrite FloatAxioms.leb_spec, FloatAxioms.abs_spec.
  change (Prim2SF 8) with (S754_finite false m_pow2 (-49)).
  apply SFleb_of_fin_ge; [apply Prim2SF_valid|reflexivity|exact H].
Qed.

(** ** The sign of a result *)

(** Rounding keeps the sign it is given and never makes a NaN. *)
Lemma binary_round_aux_signed (sx : bool) (mx ex : Z) (lx : location) :
  0 <= mx -> signed_as sx (binary_round_aux prec emax sx mx ex lx).
Proof.
  intros Hmx. unfold binary_round_aux.
  destruct (shr_fexp_spec mx ex lx Hmx) as (mrs1 & -> & Hm1 & _).
  assert (Hm1nn : 0 <= shr_m mrs1).
  { rewrite Hm1. apply Z.div_pos; [exact Hmx|]. apply pow2_pos. lia. }
  pose proof (round_nearest_even_bounds (shr_m mrs1) (loc_of_shr_record mrs1)) as Hb.
  remember (round_nearest_even (shr_m mrs1) (loc_of_shr_record mrs1)) as m2 eqn:Em2.
  assert (Hm2nn : 0 <= m2) by lia.
  destruct (shr_fexp_spec m2 (Z.max ex (fexp64 (Zdigits2 mx + ex))) loc_Exact Hm2nn)
    as (mrs2 & -> & Hm3 & _).
  assert (Hm3nn : 0 <= shr_m mrs2).
  { rewrite Hm3. apply Z.div_pos; [exact Hm2nn|]. apply pow2_pos. lia. }
  destruct (shr_m mrs2) as [|m|m]; [reflexivity| |lia].
  destruct (_ <=? _); reflexivity.
Qed.

Lemma binary_round_signed (sx : bool) (m : positive) (e : Z) :
  signed_as sx (binary_round prec emax sx m e).
Proof.
  unfold binary_round.
  destruct (shl_align m e (fexp prec emax (Zpos (digits2_pos m) + e))) as [mz ez].
  apply binary_round_aux_signed. lia.
Qed.

Lemma binary_normalize_signed (z ez : Z) :
  signed_as (z <? 0) (binary_normalize prec emax z ez false).
Proof.
  unfold binary_normalize. destruct z as [|p|p];
    [reflexivity|apply binary_round_signed ..].
Qed.

(** The sign of the difference of two finite numbers is the sign of the
    difference of their aligned mantissas. *)
Lemma SFsub_signed (sx : bool) (mx : positive) (ex : Z) (mc : positive) (ec : Z) :
  bounded prec emax mx ex = true ->
  bounded prec emax mc ec = true ->
  signed_as (sx || (scaled mx ex <? scaled mc ec))
    (SF64sub (S754_finite sx mx ex) (S754_finite false mc ec)).
Proof.
  intros Hbx Hbc.
  pose proof (bounded_spec _ _ Hbx) as (_ & Hex & _).
  pose proof (bounded_spec _ _ Hbc) as (_ & Hec & _).
  destruct (SFsub_aligned sx mx ex false mc ec (proj1 Hex) (proj1 Hec))
    as (X & C & ez & -> & Hez & HX0 & HC0 & HX & HC).
  pose proof (pow2_pos (ez + 1074) ltac:(lia)) as HP.
  rewrite <- HX, <- HC.
  replace (sx || (X * 2 ^ (ez + 1074) <? C * 2 ^ (ez + 1074)))%bool
    with (cond_Zopp sx X - cond_Zopp false C <? 0).
  { apply binary_normalize_signed. }
  simpl cond_Zopp. destruct sx; simpl.
  - apply Z.ltb_lt. lia.
  - destruct (Z.ltb_spec (X - C) 0) as [H|H]; symmetry.
    + apply Z.ltb_lt. apply Z.mul_lt_mono_pos_r; lia.
    + apply Z.ltb_ge. apply Z.mul_le_mono_nonneg_r; lia.
Qed.

Lemma SFdiv_signed (d : spec_float) (s sc : bool) (mc : positive) (ec : Z) :
  valid_binary d = true ->
  bounded prec emax mc ec = true ->
  signed_as s d ->
  signed_as (xorb s sc) (SF64div d (S754_finite sc mc ec)).
Proof.
  intros Hv Hbc Hs.
  destruct d as [sd|sd| |sd md ed]; simpl in Hs; try contradiction; subst sd;
    try reflexivity.
  destruct (SFdiv_core_spec md ed mc ec Hv Hbc)
    as (q & r & e' & s0 & Hcore & _ & _ & _ & _ & Hq & _ & _).
  unfold SF64div, SFdiv. rewrite Hcore.
  apply binary_round_aux_signed. exact Hq.
Qed.

Lemma SFmul_signed (q : spec_float) (s s8 : bool) (m8 : positive) (e8 : Z) :
  signed_as s q ->
  signed_as (xorb s s8) (SF64mul q (S754_finite s8 m8 e8)).
Proof.
  intros Hs.
  destruct q as [sq|sq| |sq mq eq]; simpl in Hs; try contradiction; subst sq;
    try reflexivity.
  unfold SF64mul, SFmul. apply binary_round_aux_signed. lia.
Qed.

(** ** Exact results *)

Lemma binary_round_exact (sx : bool) (m : positive) (e : Z) :
  bounded prec emax m e = true ->
  binary_round prec emax sx m e = S754_finite sx m e.
Proof.
  intros Hb. pose proof (bounded_spec _ _ Hb) as (Hd & He & Hc).
  unfold binary_round. rewrite fexp64_eq.
  replace (fexp64 (Zpos (digits2_pos m) + e)) with e by (unfold fexp64; lia).
  unfold shl_align. rewrite Z.sub_diag.
  pose proof (binary_round_aux_exact sx m e 0 (Z.le_refl 0)) as H.
  rewrite Z.add_0_r, Z.pow_0_r, Z.mul_1_r in H. apply H. exact Hb.
Qed.

(** The far edge is a centre away from the centre. *)
Lemma SFsub_twice (m : positive) (e : Z) :
  bounded prec emax m (e - 1) = true ->
  SF64sub (S754_finite false m e) (S754_finite false m (e - 1))
  = S754_finite false m (e - 1).
Proof.
  intros Hb. unfold SF64sub, SFsub. cbv zeta.
  replace (Z.min e (e - 1)) with (e - 1) by lia.
  unfold shl_align. rewrite Z.sub_diag.
  replace (e - 1 - e) with (Z.neg 1) by lia.
  cbn [fst Pos.iter cond_Zopp].
  replace (Zpos m~0 - Zpos m) with (Zpos m) by lia.
  unfold binary_normalize. apply binary_round_exact. exact Hb.
Qed.

Lemma new_location_zero (nb : Z) : new_location nb 0 = loc_Exact.
Proof. unfold new_location. destruct (Z.even nb); reflexivity. Qed.

(** A normal number divided by itself is 1, with the sign of the
    quotient. *)
Lemma SFdiv_self (s s' : bool) (m : positive) (e : Z) :
  bounded prec emax m e = true ->
  Zpos (digits2_pos m) = 53 ->
  SF64div (S754_finite s m e) (S754_finite s' m e)
  = S754_finite (xorb s s') m_pow2 (-52).
Proof.
  intros Hb Hd.
  unfold SF64div, SFdiv, SFdiv_core_binary. cbv zeta. rewrite fexp64_eq.
  simpl Zdigits2. rewrite Hd.
  replace (53 + e - (53 + e)) with 0 by lia.
  replace (e - e) with 0 by lia.
  change (Z.min (fexp64 0) 0) with (-53).
  change (0 - -53) with 53.
  cbv beta iota.
  rewrite Z.shiftl_mul_pow2 by lia.
  rewrite div_eucl_div_mod.
  rewrite (Z.mul_comm (Zpos m)), Z.div_mul, Z.mod_mul by lia.
  rewrite new_location_zero.
  change (2 ^ 53) with (Zpos m_pow2 * 2 ^ 1).
  change (-52) with (-53 + 1).
  apply binary_round_aux_exact; [lia|reflexivity].
Qed.

Lemma SFmul_one_eight (s s8 : bool) :
  SF64mul (S754_finite s m_pow2 (-52)) (S754_finite s8 m_pow2 (-49))
  = S754_finite (xorb s s8) m_pow2 (-49).
Proof. destruct s, s8; vm_compute; reflexivity. Qed.

(** ** The direction of a tilt component *)

Lemma centre_normal (W : float) :
  (0x1p-1021 <=? W)%float = true ->
  (W <? infinity)%float = true ->
  exists m e,
    Prim2SF W = S754_finite false m e /\
    Prim2SF (W / 2)%float = S754_finite false m (e - 1) /\
    bounded prec emax m (e - 1) = true /\
    Zpos (digits2_pos m) = 53.
Proof.
  intros HW1 HW2.
  destruct (size_in_range W HW1 HW2) as (m & e & HW & Hb & He).
  assert (Hc : Prim2SF (W / 2)%float = S754_finite false m (e - 1)).
  { rewrite FloatAxioms.div_spec, HW.
    change (Prim2SF 2) with (S754_finite false m_pow2 (-51)).
    apply SFdiv_two_exact; assumption. }
  pose proof (Prim2SF_valid (W / 2)%float) as Hbc. rewrite Hc in Hbc.
  exists m, e. repeat split; try assumption.
  apply bounded_spec in Hb. lia.
Qed.

(** The sign of the offset of a sample from a positive centre. *)
Lemma offset_sign (p c : float) (mc : positive) (ec : Z) :
  Prim2SF c = S754_finite false mc ec ->
  ((c <=? p)%float = true -> signed_as false (Prim2SF (p - c)%float)) /\
  ((p <? c)%float = true -> signed_as true (Prim2SF (p - c)%float)).
Proof.
  intros Hc.
  pose proof (Prim2SF_valid c) as Hbc. rewrite Hc in Hbc. simpl in Hbc.
  pose proof (Prim2SF_valid p) as Hv.
  rewrite FloatAxioms.leb_spec, FloatAxioms.ltb_spec, FloatAxioms.sub_spec, Hc.
  destruct (Prim2SF p) as [s|s| |s mp ep].
  - split; [destruct s; discriminate|]. intros _. reflexivity.
  - destruct s; split; try discriminate; intros _; reflexivity.
  - split; discriminate.
  - simpl in Hv.
    pose proof (SFsub_signed s mp ep mc ec Hv Hbc) as Hs.
    unfold SFleb, SFltb, SFcompare.
    destruct s.
    + split; [discriminate|]. intros _. exact Hs.
    + rewrite (compare_bounded mc ec mp ep Hbc Hv).
      rewrite (compare_bounded mp ep mc ec Hv Hbc).
      simpl orb in Hs.
      destruct (Z.ltb_spec (scaled mp ep) (scaled mc ec)) as [Hlt|Hge]; split; intros H.
      * destruct (Z.compare_spec (scaled mc ec) (scaled mp ep)); try discriminate; lia.
      * exact Hs.
      * exact Hs.
      * destruct (Z.compare_spec (scaled mp ep) (scaled mc ec)); try discriminate; lia.
Qed.

(** A component of the tilt has the sign of the offset times the sign of
    the factor. *)
Lemma scale_offset_signed (d c k : float) (s : bool) (mc : positive) (ec : Z)
    (s8 : bool) (m8 : positive) (e8 : Z) :
  Prim2SF c = S754_finite false mc ec ->
  Prim2SF k = S754_finite s8 m8 e8 ->
  signed_as s (Prim2SF d) ->
  signed_as (xorb s s8) (Prim2SF ((d / c) * k)%float).
Proof.
  intros Hc Hk Hd.
  pose proof (Prim2SF_valid c) as Hbc. rewrite Hc in Hbc.
  rewrite FloatAxioms.mul_spec, FloatAxioms.div_spec, Hc, Hk.
  apply SFmul_signed.
  replace s with (xorb s false) by (destruct s; reflexivity).
  apply SFdiv_signed; [apply Prim2SF_valid|exact Hbc|exact Hd].
Qed.

Lemma signed_leb (t : float) :
  (signed_as false (Prim2SF t) -> (0 <=? t)%float = true) /\
  (signed_as true (Prim2SF t) -> (t <=? 0)%float = true).
Proof.
  rewrite !FloatAxioms.leb_spec. change (Prim2SF 0) with (S754_zero false).
  destruct (Prim2SF t) as [s|s| |s m e]; simpl; split; intros H;
    try contradiction; subst; reflexivity.
Qed.

Lemma tilt_component_direction (p W k : float) (s8 : bool) (m8 : positive) (e8 : Z) :
  (0x1p-1021 <=? W)%float = true ->
  (W <? infinity)%float = true ->
  Prim2SF k = S754_finite s8 m8 e8 ->
  ((W / 2 <=? p)%float = true ->
   signed_as s8 (Prim2SF (((p - W / 2) / (W / 2)) * k)%float)) /\
  ((p <? W / 2)%float = true ->
   signed_as (negb s8) (Prim2SF (((p - W / 2) / (W / 2)) * k)%float)).
Proof.
  intros HW1 HW2 Hk.
  destruct (centre_normal W HW1 HW2) as (m & e & _ & Hc & _ & _).
  destruct (offset_sign p (W / 2)%float m (e - 1) Hc) as [Hge Hlt].
  split; intros H.
  - apply (scale_offset_signed _ _ _ false m (e - 1) s8 m8 e8 Hc Hk). auto.
  - apply (scale_offset_signed _ _ _ true m (e - 1) s8 m8 e8 Hc Hk). auto.
Qed.

(** ** No NaN from numbers *)

Lemma is_nan_spec (t : float) : is_nan t = true <-> Prim2SF t = S754_nan.
Proof.
  unfold is_nan. rewrite FloatAxioms.eqb_spec.
  pose proof (Prim2SF_valid t) as Hv.
  destruct (Prim2SF t) as [s|s| |s m e]; simpl.
  - destruct s; split; discriminate.
  - destruct s; split; discriminate.
  - split; reflexivity.
  - unfold SFeqb, SFcompare. rewrite Z.compare_refl.
    change (Pos.compare_cont Eq m m) with (Pos.compare m m).
    rewrite Pos.compare_refl. destruct s; split; discriminate.
Qed.

Lemma signed_not_nan (t : float) (s : bool) :
  signed_as s (Prim2SF t) -> is_nan t = false.
Proof.
  intros H. destruct (is_nan t) eqn:E; [|reflexivity].
  apply is_nan_spec in E. rewrite E in H. contradiction.
Qed.

Lemma tilt_component_not_nan (p W k : float) (s8 : bool) (m8 : positive) (e8 : Z) :
  (0x1p-1021 <=? W)%float = true ->
  (W <? infinity)%float = true ->
  Prim2SF k = S754_finite s8 m8 e8 ->
  is_nan p = false ->
  is_nan (((p - W / 2) / (W / 2)) * k)%float = false.
Proof.
  intros HW1 HW2 Hk Hp.
  destruct (centre_normal W HW1 HW2) as (m & e & _ & Hc & Hbc & _).
  assert (Hd : exists s, signed_as s (Prim2SF (p - W / 2)%float)).
  { rewrite FloatAxioms.sub_spec, Hc.
    pose proof (Prim2SF_valid p) as Hv.
    destruct (Prim2SF p) as [s|s| |s mp ep] eqn:EP.
    - exists true. reflexivity.
    - exists s. reflexivity.
    - exfalso. apply is_nan_spec in EP. congruence.
    - eexists. apply SFsub_signed; assumption. }
  destruct Hd as [s Hd].
  apply (signed_not_nan _ (xorb s s8)).
  exact (scale_offset_signed _ _ _ s m (e - 1) s8 m8 e8 Hc Hk Hd).
Qed.

(** ** The edges *)

(** At the far edge the component is the factor itself, at the near edge
    its opposite. *)
Lemma tilt_component_at_edges (p W k : float) (s8 : bool) :
  (0x1p-1021 <=? W)%float = true ->
  (W <? infinity)%float = true ->
  Prim2SF k = S754_finite s8 m_pow2 (-49) ->
  (p = W -> (((p - W / 2) / (W / 2)) * k)%float = k) /\
  ((p =? 0)%float = true -> (((p - W / 2) / (W / 2)) * k)%float = (- k)%float).
Proof.
  intros HW1 HW2 Hk.
  destruct (centre_normal W HW1 HW2) as (m & e & HW & Hc & Hbc & Hd).
  split; intros Hp; apply Prim2SF_inj.
  - subst p. rewrite FloatAxioms.mul_spec, FloatAxioms.div_spec, FloatAxioms.sub_spec, Hc, HW, Hk.
    rewrite SFsub_twice by exact Hbc.
    rewrite SFdiv_self by assumption.
    apply SFmul_one_eight.
  - rewrite FloatAxioms.opp_spec, FloatAxioms.mul_spec, FloatAxioms.div_spec, FloatAxioms.sub_spec, Hc, Hk.
    rewrite FloatAxioms.eqb_spec in Hp. change (Prim2SF 0) with (S754_zero false) in Hp.
    destruct (Prim2SF p) as [s|s| |s mp ep]; try discriminate;
      try (destruct s; discriminate).
    simpl SF64sub. unfold SF64sub, SFsub. simpl negb.
    rewrite SFdiv_self by assumption.
    rewrite SFmul_one_eight. destruct s8; reflexivity.
Qed.

(** ** The two factors *)

(** Multiplying by [-8] is multiplying by [8] and changing the sign. *)
Lemma mul_neg_eight (q : float) : (q * (-8))%float = (- (q * 8))%float.
Proof.
  apply Prim2SF_inj. rewrite FloatAxioms.opp_spec, !FloatAxioms.mul_spec.
  change (Prim2SF (-8)) with (S754_finite true m_pow2 (-49)).
  change (Prim2SF 8) with (S754_finite false m_pow2 (-49)).
  destruct (Prim2SF q) as [s|s| |s mq eq]; try (destruct s; reflexivity);
    try reflexivity.
  unfold SF64mul, SFmul, binary_round_aux.
  destruct (shr_fexp _ _ _ _ _) as [mrs1 e1].
  destruct (shr_fexp _ _ _ _ _) as [mrs2 e2].
  destruct (shr_m mrs2); [destruct s; reflexivity| |reflexivity].
  destruct (_ <=? _); destruct s; reflexivity.
Qed.

(** ** Away from the centre a tilt component is not zero *)

Lemma SFsub_aligned_min (sx : bool) (mx : positive) (ex : Z)
    (sc : bool) (mc : positive) (ec : Z) :
  -1074 <= ex -> -1074 <= ec ->
  exists X C,
    SF64sub (S754_finite sx mx ex) (S754_finite sc mc ec)
    = binary_normalize prec emax (cond_Zopp sx X - cond_Zopp sc C)
        (Z.min ex ec) false /\
    0 < X /\ 0 < C /\
    X * 2 ^ (Z.min ex ec + 1074) = scaled mx ex /\
    C * 2 ^ (Z.min ex ec + 1074) = scaled mc ec.
Proof.
  intros Hex Hec. unfold SF64sub, SFsub. cbv zeta.
  remember (Z.min ex ec) as ez eqn:Eez.
  destruct (shl_align_spec mx ex ez) as (_ & HX & _).
  destruct (shl_align_spec mc ec ez) as (_ & HC & _).
  replace (Z.min ex ez) with ez in HX by lia.
  replace (Z.min ec ez) with ez in HC by lia.
  exists (Zpos (fst (shl_align mx ex ez))), (Zpos (fst (shl_align mc ec ez))).
  split; [reflexivity|]. split; [lia|]. split; [lia|].
  unfold scaled. rewrite HX, HC, <- !Z.mul_assoc, <- !Z.pow_add_r by lia.
  split; do 2 f_equal; lia.
Qed.

Lemma abs_diff_unit (X C P : Z) :
  0 < P -> X <> C -> P <= Z.abs (X - C) * P.
Proof.
  intros HP Hne.
  replace P with (1 * P) at 1 by ring.
  apply Z.mul_le_mono_nonneg_r; lia.
Qed.

Lemma normal_gap (mx mc ex ec : Z) :
  0 < mx < 2 ^ 53 -> 2 ^ 52 <= mc ->
  -1074 <= ex -> ex + 2 <= ec ->
  2 ^ 51 * 2 ^ (ec + 1074) <= mc * 2 ^ (ec + 1074) - mx * 2 ^ (ex + 1074).
Proof.
  intros Hmx Hmc Hex Hec.
  pose proof (pow2_pos (ex + 1074) ltac:(lia)) as HP.
  assert (H1 : mx * 2 ^ (ex + 1074) <= 2 ^ 53 * 2 ^ (ex + 1074)).
  { apply Z.mul_le_mono_nonneg_r; lia. }
  assert (H2 : 2 ^ 53 * 2 ^ (ex + 1074) <= 2 ^ 51 * 2 ^ (ec + 1074)).
  { rewrite <- !Z.pow_add_r by lia. apply Z.pow_le_mono_r; lia. }
  assert (H3 : 2 ^ 52 * 2 ^ (ec + 1074) <= mc * 2 ^ (ec + 1074)).
  { apply Z.mul_le_mono_nonneg_r; [|exact Hmc].
    apply Z.lt_le_incl, pow2_pos. lia. }
  assert (H4 : 2 ^ 52 * 2 ^ (ec + 1074) = 2 * (2 ^ 51 * 2 ^ (ec + 1074))).
  { change (2 ^ 52) with (2 * 2 ^ 51). ring. }
  lia.
Qed.

Lemma near_gap (mc ec ez : Z) :
  0 < mc < 2 ^ 53 -> -1074 <= ez -> ec <= ez + 1 ->
  mc * 2 ^ (ec + 1074) <= 2 ^ 54 * (1 * 2 ^ (ez + 1074)).
Proof.
  intros Hmc Hez Hec.
  destruct (Z_lt_le_dec (ec + 1074) 0) as [Hneg|Hpos].
  - rewrite (Z.pow_neg_r 2 (ec + 1074)) by lia.
    pose proof (pow2_pos (ez + 1074) ltac:(lia)). lia.
  - apply Z.le_trans with (2 ^ 53 * 2 ^ (ec + 1074)).
    + apply Z.mul_le_mono_nonneg_r; [|lia]. apply Z.lt_le_incl, pow2_pos. lia.
    + rewrite Z.mul_1_l, <- !Z.pow_add_r by lia. apply Z.pow_le_mono_r; lia.
Qed.

(** Two different non-negative numbers, the second one normal, differ by
    at least [2^-54] times the second one. *)
Lemma SFsub_apart (mx : positive) (ex : Z) (mc : positive) (ec : Z) :
  bounded prec emax mx ex = true ->
  bounded prec emax mc ec = true ->
  Zpos (digits2_pos mc) = 53 ->
  scaled mx ex <> scaled mc ec ->
  exists G,
    fin_ge (SF64sub (S754_finite false mx ex) (S754_finite false mc ec)) G /\
    scaled mc ec <= 2 ^ 54 * G.
Proof.
  intros Hbx Hbc Hdc Hne.
  pose proof (bounded_spec _ _ Hbx) as (_ & Hex & _).
  pose proof (bounded_spec _ _ Hbc) as (_ & Hec & _).
  pose proof (bounded_mantissa _ _ Hbc) as Hmc.
  pose proof (bounded_mantissa _ _ Hbx) as Hmx.
  destruct (digits2_pos_bounds mc) as [Hmc52 _]. rewrite Hdc in Hmc52.
  change (2 ^ (53 - 1)) with (2 ^ 52) in Hmc52.
  destruct (SFsub_aligned_min false mx ex false mc ec (proj1 Hex) (proj1 Hec))
    as (X & C & -> & HX0 & HC0 & HX & HC).
  simpl cond_Zopp.
  remember (Z.min ex ec) as ez eqn:Eez.
  assert (Hez : -1074 <= ez <= 971) by lia.
  pose proof (pow2_pos (ez + 1074) ltac:(lia)) as HP.
  assert (HXC : X <> C).
  { intros ->. apply Hne. now rewrite <- HX, <- HC. }
  destruct (Z_lt_le_dec (ex + 1) ec) as [Hfar|Hnear].
  - exists (2 ^ 51 * 2 ^ (ec + 1074)). split.
    + apply binary_normalize_ge; try lia.
      pose proof (normal_gap (Zpos mx) (Zpos mc) ex ec Hmx Hmc52
                    (proj1 Hex) ltac:(lia)) as Hgap.
      fold (scaled mc ec) in Hgap. fold (scaled mx ex) in Hgap.
      rewrite <- HX, <- HC, <- Z.mul_sub_distr_r in Hgap.
      apply Z.le_trans with (1 := Hgap).
      apply Z.mul_le_mono_nonneg_r; lia.
    + unfold scaled.
      apply Z.le_trans with (2 ^ 53 * 2 ^ (ec + 1074)).
      * apply Z.mul_le_mono_nonneg_r; [|lia]. apply Z.lt_le_incl, pow2_pos. lia.
      * rewrite Z.mul_assoc. apply Z.mul_le_mono_nonneg_r; [|discriminate].
        apply Z.lt_le_incl, pow2_pos. lia.
  - exists (1 * 2 ^ (ez + 1074)). split.
    + apply binary_normalize_ge; try lia.
      rewrite Z.mul_1_l. apply abs_diff_unit; assumption.
    + unfold scaled. apply near_gap; lia.
Qed.

Lemma quotient_above_tiny (md mc q r s e' k ed ec : Z) :
  0 < md -> 0 < mc -> 0 <= s ->
  md * 2 ^ s = mc * q + r -> 0 <= r < mc ->
  k <= e' -> k <= -1128 -> -1074 <= ec -> -1074 <= ed ->
  s + e' = ed - ec ->
  (-54 < e' -> 1 <= q) ->
  mc * 2 ^ (ec + 1074) <= 2 ^ 54 * (md * 2 ^ (ed + 1074)) ->
  1 * 2 ^ (-54 - k) <= q * 2 ^ (e' - k).
Proof.
  intros Hmd Hmc Hs Hdm Hr Hk Hk' Hec Hed Hse Hbig Hle.
  pose proof (quotient_above_one md mc q r s (e' + 54) (k + 54) (ed + 54) ec
                Hmd Hmc Hs Hdm Hr ltac:(lia) ltac:(lia) Hec ltac:(lia)
                ltac:(lia) ltac:(intros; apply Hbig; lia)) as H.
  replace (e' + 54 - (k + 54)) with (e' - k) in H by lia.
  replace (- (k + 54)) with (-54 - k) in H by lia.
  rewrite Z.mul_1_l. apply H.
  replace (ed + 54 + 1074) with (54 + (ed + 1074)) by lia.
  rewrite (Z.pow_add_r 2 54 (ed + 1074)) by lia.
  replace (md * (2 ^ 54 * 2 ^ (ed + 1074)))
    with (2 ^ 54 * (md * 2 ^ (ed + 1074))) by ring.
  exact Hle.
Qed.

(** A quotient whose numerator is at least [2^-54] times the denominator
    does not underflow. *)
Lemma SFdiv_apart (sd : bool) (md : positive) (ed : Z)
    (sc : bool) (mc : positive) (ec : Z) :
  bounded prec emax md ed = true ->
  bounded prec emax mc ec = true ->
  scaled mc ec <= 2 ^ 54 * scaled md ed ->
  fin_ge (SF64div (S754_finite sd md ed) (S754_finite sc mc ec))
         (1 * 2 ^ (-54 + 1074)).
Proof.
  intros Hbd Hbc Hle.
  pose proof (bounded_spec _ _ Hbd) as (_ & Hed & _).
  pose proof (bounded_spec _ _ Hbc) as (_ & Hec & _).
  destruct (SFdiv_core_spec md ed mc ec Hbd Hbc)
    as (q & r & e' & s & Hcore & Hs & Hse & Hdm & Hr & Hq & Hq52 & H0).
  unfold SF64div, SFdiv. rewrite Hcore.
  remember (Z.min e' (-1128)) as k eqn:Ek.
  assert (Hk1 : k <= e') by lia.
  assert (Hk2 : k <= -1128) by lia.
  assert (Hq1 : -54 < e' -> 1 <= q).
  { intros Hpos. apply Z.le_trans with (2 ^ 52); [discriminate|]. apply Hq52. lia. }
  pose proof (quotient_above_tiny (Zpos md) (Zpos mc) q r s e' k ed ec
                ltac:(reflexivity) ltac:(reflexivity) Hs Hdm Hr Hk1 Hk2
                (proj1 Hec) (proj1 Hed) Hse Hq1 Hle) as Hmain.
  apply (binary_round_aux_ge _ q e' _ 1 (-54) k);
    try assumption; lia.
Qed.

(** Eight times a number of magnitude at least [2^-54] has magnitude at
    least [2^-51]. *)
Lemma SFmul_eight_apart (sq : bool) (mq : positive) (eq : Z) (s8 : bool) :
  bounded prec emax mq eq = true ->
  1 * 2 ^ (-54 + 1074) <= scaled mq eq ->
  fin_ge (SF64mul (S754_finite sq mq eq) (S754_finite s8 m_pow2 (-49)))
         (1 * 2 ^ (-51 + 1074)).
Proof.
  intros Hb Hle.
  destruct (mul_eight_aligned mq eq Hb) as (Hk & H0 & Hv & H8).
  unfold SF64mul, SFmul.
  apply (binary_round_aux_ge _ _ _ _ 1 (-51) (-1123));
    try assumption; try lia.
  rewrite Hv.
  change (1 * 2 ^ (-51 - -1123)) with (1 * 2 ^ (-54 + 1074) * Zpos m_pow2).
  apply Z.mul_le_mono_nonneg_r; [lia|exact Hle].
Qed.

Lemma scale_offset_apart (d c k : float) (sc : bool) (mc : positive) (ec : Z)
    (s8 : bool) (G : Z) :
  Prim2SF c = S754_finite sc mc ec ->
  Prim2SF k = S754_finite s8 m_pow2 (-49) ->
  fin_ge (Prim2SF d) G ->
  scaled mc ec <= 2 ^ 54 * G ->
  fin_ge (Prim2SF ((d / c) * k)%float) (1 * 2 ^ (-51 + 1074)).
Proof.
  intros Hc Hk Hd HG.
  pose proof (Prim2SF_valid c) as Hbc. rewrite Hc in Hbc.
  assert (Hq : fin_ge (Prim2SF (d / c)%float) (1 * 2 ^ (-54 + 1074))).
  { rewrite FloatAxioms.div_spec, Hc.
    pose proof (Prim2SF_valid d) as Hvd.
    destruct (Prim2SF d) as [s|s| |s md ed]; simpl in Hd; try contradiction.
    - exact I.
    - apply SFdiv_apart; [exact Hvd|exact Hbc|].
      apply Z.le_trans with (1 := HG).
      apply Z.mul_le_mono_nonneg_l; [discriminate|apply Hd]. }
  rewrite FloatAxioms.mul_spec, Hk.
  pose proof (Prim2SF_valid (d / c)%float) as Hvq.
  destruct (Prim2SF (d / c)%float) as [s|s| |s mq eq]; simpl in Hq;
    try contradiction.
  - exact I.
  - apply SFmul_eight_apart; [exact Hvq|apply Hq].
Qed.

Lemma SFeqb_finite (sp : bool) (mp : positive) (ep : Z) (mc : positive) (ec : Z) :
  bounded prec emax mp ep = true ->
  bounded prec emax mc ec = true ->
  SFeqb (S754_finite sp mp ep) (S754_finite false mc ec)
  = negb sp && (scaled mp ep =? scaled mc ec).
Proof.
  intros Hbp Hbc. unfold SFeqb, SFcompare.
  destruct sp; [reflexivity|]. simpl negb. simpl andb.
  rewrite (compare_bounded mp ep mc ec Hbp Hbc).
  rewrite Z.eqb_compare. destruct (scaled mp ep ?= scaled mc ec); reflexivity.
Qed.

Lemma fin_ge_nonzero (t : float) (G : Z) :
  fin_ge (Prim2SF t) G -> (t =? 0)%float = false.
Proof.
  intros H. rewrite FloatAxioms.eqb_spec.
  change (Prim2SF 0) with (S754_zero false).
  destruct (Prim2SF t) as [s|s| |s m e]; simpl in H; try contradiction.
  - destruct s; reflexivity.
  - destruct s; reflexivity.
Qed.

(** Away from the centre of a regular side a tilt component has magnitude
    at least [2^-51]. *)
Lemma tilt_component_apart (p W k : float) (s8 : bool) :
  (0x1p-1021 <=? W)%float = true ->
  (W <? infinity)%float = true ->
  Prim2SF k = S754_finite s8 m_pow2 (-49) ->
  is_nan p = false ->
  (p =? W / 2)%float = false ->
  fin_ge (Prim2SF (((p - W / 2) / (W / 2)) * k)%float) (1 * 2 ^ (-51 + 1074)).
Proof.
  intros HW1 HW2 Hk Hnan Hne.
  destruct (centre_normal W HW1 HW2) as (m & e & HW & Hc & Hbc & Hdc).
  pose proof (bounded_spec _ _ Hbc) as (_ & Hec & _).
  rewrite FloatAxioms.eqb_spec, Hc in Hne.
  assert (Hd : exists G, fin_ge (Prim2SF (p - W / 2)%float) G /\
                         scaled m (e - 1) <= 2 ^ 54 * G).
  { rewrite FloatAxioms.sub_spec, Hc.
    pose proof (Prim2SF_valid p) as Hvp.
    destruct (Prim2SF p) as [s|s| |sp mp ep] eqn:Ep.
    - exists (scaled m (e - 1)). split.
      + simpl. split; [exact Hec|apply Z.le_refl].
      + pose proof (scaled_pos m (e - 1) ltac:(lia)). lia.
    - exists (scaled m (e - 1)). split; [exact I|].
      pose proof (scaled_pos m (e - 1) ltac:(lia)). lia.
    - exfalso. apply is_nan_spec in Ep. congruence.
    - rewrite (SFeqb_finite sp mp ep m (e - 1) Hvp Hbc) in Hne.
      destruct sp.
      + exists (scaled m (e - 1)). split.
        * apply SFsub_beyond_near; assumption.
        * pose proof (scaled_pos m (e - 1) ltac:(lia)). lia.
      + simpl in Hne. apply Z.eqb_neq in Hne.
        apply SFsub_apart; assumption. }
  destruct Hd as (G & Hd & HG).
  apply (scale_offset_apart _ _ _ false m (e - 1) s8 G); assumption.
Qed.

(** A tilt component on a regular side is zero exactly at the centre. *)
Lemma tilt_component_zero_iff (p W k : float) (s8 : bool) :
  (0x1p-1021 <=? W)%float = true ->
  (W <? infinity)%float = true ->
  Prim2SF k = S754_finite s8 m_pow2 (-49) ->
  is_nan p = false ->
  ((((p - W / 2) / (W / 2)) * k =? 0) = (p =? W / 2))%float.
Proof.
  intros HW1 HW2 Hk Hnan.
  destruct (p =? W / 2)%float eqn:E.
  - destruct (centre_normal W HW1 HW2) as (m & e & HW & Hc & Hbc & Hdc).
    assert (Hp : p = (W / 2)%float).
    { apply Prim2SF_inj. rewrite Hc.
      rewrite FloatAxioms.eqb_spec, Hc in E.
      pose proof (Prim2SF_valid p) as Hvp.
      destruct (Prim2SF p) as [s|s| |sp mp ep]; try (destruct s; discriminate);
        try discriminate.
      rewrite (SFeqb_finite sp mp ep m (e - 1) Hvp Hbc) in E.
      destruct sp; [discriminate|]. simpl in E. apply Z.eqb_eq in E.
      pose proof (compare_bounded mp ep m (e - 1) Hvp Hbc) as Hcmp.
      rewrite E, Z.compare_refl in Hcmp.
      destruct (Z.compare_spec ep (e - 1)) as [He| |]; try discriminate.
      apply Pos.compare_eq in Hcmp. now subst. }
    rewrite Hp.
    rewrite FloatAxioms.eqb_spec, FloatAxioms.mul_spec, FloatAxioms.div_spec,
      FloatAxioms.sub_spec, Hc, Hk.
    change (Prim2SF 0) with (S754_zero false).
    unfold SF64sub, SFsub. cbv zeta. rewrite Z.min_id, Z.sub_diag.
    reflexivity.
  - apply (fin_ge_nonzero _ (1 * 2 ^ (-51 + 1074))).
    apply (tilt_component_apart p W k s8); assumption.
Qed.

End Rounding.

(** * The tilt handlers *)

Section Tilt.

Local Open Scope float_scope.

Context {Handler : Type}.

Implicit Types (props : BenefitCardProps Handler) (e : MouseEvent) (tilt : Tilt).

(** With a click handler the new tilt is the pair of the source's
    [tiltX] and [tiltY]. *)
Lemma handleMouseMove_interactive props e tilt (h : Handler) :
  onClick props = Some h ->
  handleMouseMove props e tilt
  = {| x := ((sampleY e - height (currentTarget e) / 2)
             / (height (currentTarget e) / 2)) * (-8);
       y := ((sampleX e - width (currentTarget e) / 2)
             / (width (currentTarget e) / 2)) * 8 |}.
Proof.
  intros H. unfold handleMouseMove. rewrite H. reflexivity.
Qed.

(** On a card placed at the origin the sample is the client point: the
    subtraction of [+0] changes no number. *)
Lemma sub_zero (a : float) : a - 0 = a.
Proof.
  apply Prim2SF_inj. rewrite FloatAxioms.sub_spec.
  change (Prim2SF 0) with (S754_zero false).
  destruct (Prim2SF a) as [[|]|[|]| |s m e]; reflexivity.
Qed.

Lemma pointerAt_sample (sx sy w h : float) :
  sampleX (pointerAt sx sy w h) = sx /\ sampleY (pointerAt sx sy w h) = sy.
Proof. unfold sampleX, sampleY. simpl. now rewrite !sub_zero. Qed.

Lemma regularSide_split (w : float) :
  regularSide w = true ->
  (0x1p-1021 <=? w) = true /\ (w <? infinity) = true.
Proof. unfold regularSide. apply andb_true_iff. Qed.

Lemma within_split (p w : float) :
  within p w = true -> (0 <=? p) = true /\ (p <=? w) = true.
Proof. unfold within. apply andb_true_iff. Qed.

(** Both components of the tilt, measured against [8]. *)
Lemma tilt_fin_le props e tilt (h : Handler) :
  onClick props = Some h ->
  regularSide (width (currentTarget e)) = true ->
  regularSide (height (currentTarget e)) = true ->
  within (sampleX e) (width (currentTarget e)) = true ->
  within (sampleY e) (height (currentTarget e)) = true ->
  fin_le (Prim2SF (x (handleMouseMove props e tilt))) (scaled m_pow2 (-49)) /\
  fin_le (Prim2SF (y (handleMouseMove props e tilt))) (scaled m_pow2 (-49)).
Proof.
  intros Hh HW HH HX HY.
  rewrite (handleMouseMove_interactive props e tilt h Hh). simpl x. simpl y.
  apply regularSide_split in HW, HH. apply within_split in HX, HY.
  split.
  - apply (tilt_component_within _ _ _ true); try tauto; reflexivity.
  - apply (tilt_component_within _ _ _ false); try tauto; reflexivity.
Qed.

(** Both components for a sample beyond an edge. *)
Lemma tilt_fin_ge props e tilt (h : Handler) :
  onClick props = Some h ->
  regularSide (width (currentTarget e)) = true ->
  regularSide (height (currentTarget e)) = true ->
  (beyond (sampleY e) (height (currentTarget e)) = true ->
   fin_ge (Prim2SF (x (handleMouseMove props e tilt))) (scaled m_pow2 (-49))) /\
  (beyond (sampleX e) (width (currentTarget e)) = true ->
   fin_ge (Prim2SF (y (handleMouseMove props e tilt))) (scaled m_pow2 (-49))).
Proof.
  intros Hh HW HH.
  rewrite (handleMouseMove_interactive props e tilt h Hh). simpl x. simpl y.
  apply regularSide_split in HW, HH.
  split; intros Hb.
  - apply (tilt_component_beyond _ _ _ true); try tauto; reflexivity.
  - apply (tilt_component_beyond _ _ _ false); try tauto; reflexivity.
Qed.

(** ** A surface without extent *)

(** The component of the tilt along a side of length zero. *)
Lemma degenerate_component (p w k : float) (s8 : bool) :
  (w =? 0) = true ->
  Prim2SF k = S754_finite s8 m_pow2 (-49) ->
  JS.isFinite (((p - w / 2) / (w / 2)) * k) = false.
Proof.
  intros Hw Hk. unfold JS.isFinite.
  rewrite FloatAxioms.ltb_spec, FloatAxioms.abs_spec, FloatAxioms.mul_spec,
    FloatAxioms.div_spec, FloatAxioms.sub_spec, FloatAxioms.div_spec, Hk.
  rewrite FloatAxioms.eqb_spec in Hw.
  change (Prim2SF 0) with (S754_zero false) in Hw.
  change (Prim2SF 2) with (S754_finite false m_pow2 (-51)).
  change (Prim2SF infinity) with (S754_infinity false).
  destruct (Prim2SF w) as [sw|sw| |sw mw ew]; try discriminate;
    try (destruct sw; discriminate).
  destruct (Prim2SF p) as [sp|sp| |sp mp ep], sw; try destruct sp; reflexivity.
Qed.

(** When the sample sits on the zero centre the component is NaN. *)
Lemma degenerate_component_nan (p w k : float) (s8 : bool) :
  (w =? 0) = true ->
  (p =? 0) = true ->
  Prim2SF k = S754_finite s8 m_pow2 (-49) ->
  is_nan (((p - w / 2) / (w / 2)) * k) = true.
Proof.
  intros Hw Hp Hk. unfold is_nan.
  rewrite FloatAxioms.eqb_spec, FloatAxioms.mul_spec, FloatAxioms.div_spec,
    FloatAxioms.sub_spec, FloatAxioms.div_spec, Hk.
  rewrite FloatAxioms.eqb_spec in Hw, Hp.
  change (Prim2SF 0) with (S754_zero false) in Hw, Hp.
  change (Prim2SF 2) with (S754_finite false m_pow2 (-51)).
  destruct (Prim2SF w) as [sw|sw| |sw mw ew]; try discriminate;
    try (destruct sw; discriminate).
  destruct (Prim2SF p) as [sp|sp| |sp mp ep]; try discriminate;
    try (destruct sp; discriminate).
  destruct sp, sw; reflexivity.
Qed.

(** ** The centre of the surface *)

Lemma centre_component (w k : float) (s8 : bool) :
  regularSide w = true ->
  Prim2SF k = S754_finite s8 m_pow2 (-49) ->
  ((((w / 2) - w / 2) / (w / 2)) * k =? 0) = true.
Proof.
  intros Hw Hk. apply regularSide_split in Hw. destruct Hw as [Hw1 Hw2].
  destruct (centre_exact w Hw1 Hw2) as (m & e & _ & _ & Hc & _ & _).
  rewrite FloatAxioms.eqb_spec, FloatAxioms.mul_spec, FloatAxioms.div_spec,
    FloatAxioms.sub_spec, Hc, Hk.
  change (Prim2SF 0) with (S754_zero false).
  unfold SF64sub, SFsub. cbv zeta. rewrite Z.min_id, Z.sub_diag.
  reflexivity.
Qed.

(** At the exact centre of a card with regular sides the tilt is a pair
    of zeros. *)
Lemma handleMouseMove_at_centre props e tilt (h : Handler) :
  onClick props = Some h ->
  regularSide (width (currentTarget e)) = true ->
  regularSide (height (currentTarget e)) = true ->
  sampleX e = width (currentTarget e) / 2 ->
  sampleY e = height (currentTarget e) / 2 ->
  (x (handleMouseMove props e tilt) =? 0) = true /\
  (y (handleMouseMove props e tilt) =? 0) = true.
Proof.
  intros Hh HW HH HX HY.
  rewrite (handleMouseMove_interactive props e tilt h Hh). simpl x. simpl y.
  rewrite HX, HY. split.
  - apply (centre_component _ _ true); [exact HH|reflexivity].
  - apply (centre_component _ _ false); [exact HW|reflexivity].
Qed.

End Tilt.

(** * Properties of the card *)

Section CardClaims.

Local Open Scope float_scope.

Context {Handler : Type}.

Implicit Types (props : BenefitCardProps Handler) (e : MouseEvent) (tilt : Tilt).

(** C1 (as stated, refuted): the pointer is not clamped.  On a 200 x 100
    card a sample at x = 400 gives [tiltY = 24]. *)
Lemma tilt_exceeds_eight_outside :
  ~ (forall (e : MouseEvent) (tilt : Tilt),
       let t := handleMouseMove (clickable "Speed" "Fast") e tilt in
       JS.isFinite (x t) = true /\ JS.isFinite (y t) = true /\
       (abs (x t) <=? 8) = true /\ (abs (y t) <=? 8) = true).
Proof.
  intros H. specialize (H (pointerAt 400 50 200 100) initialTilt).
  destruct H as (_ & _ & _ & H). vm_compute in H. discriminate H.
Qed.

(** C1 (amended): on an interactive card whose width and height are finite
    and at least [2^-1021], every sample inside the surface bounds gives a
    finite tilt pair with both components of magnitude at most 8; a sample
    beyond an edge is not clamped, and the component along that axis has
    magnitude at least 8. *)
Theorem tilt_bounded_exactly_inside props e tilt (h : Handler) :
  onClick props = Some h ->
  regularSide (width (currentTarget e)) = true ->
  regularSide (height (currentTarget e)) = true ->
  (within (sampleX e) (width (currentTarget e)) = true ->
   within (sampleY e) (height (currentTarget e)) = true ->
   JS.isFinite (x (handleMouseMove props e tilt)) = true /\
   JS.isFinite (y (handleMouseMove props e tilt)) = true /\
   (abs (x (handleMouseMove props e tilt)) <=? 8) = true /\
   (abs (y (handleMouseMove props e tilt)) <=? 8) = true) /\
  (beyond (sampleX e) (width (currentTarget e)) = true ->
   (8 <=? abs (y (handleMouseMove props e tilt))) = true) /\
  (beyond (sampleY e) (height (currentTarget e)) = true ->
   (8 <=? abs (x (handleMouseMove props e tilt))) = true).
Proof.
  intros Hh HW HH. split; [|split].
  - intros HX HY.
    destruct (tilt_fin_le props e tilt h Hh HW HH HX HY) as [Hx Hy].
    unfold JS.isFinite.
    repeat split;
      first [ eapply fin_le_isFinite; eassumption
            | apply fin_le_eight_abs; assumption ].
  - intros Hb. apply fin_ge_eight_abs.
    exact (proj2 (tilt_fin_ge props e tilt h Hh HW HH) Hb).
  - intros Hb. apply fin_ge_eight_abs.
    exact (proj1 (tilt_fin_ge props e tilt h Hh HW HH) Hb).
Qed.

(** C2 (as stated, refuted): nothing guards the division.  On a card of
    size 0 x 0 the sample (0, 0) gives the tilt (NaN, NaN). *)
Lemma degenerate_surface_gives_nan :
  ~ (forall (e : MouseEvent) (tilt : Tilt),
       (width (currentTarget e) =? 0) = true \/
       (height (currentTarget e) =? 0) = true ->
       let t := handleMouseMove (clickable "Speed" "Fast") e tilt in
       (x t =? 0) = true /\ (y t =? 0) = true).
Proof.
  intros H. specialize (H (pointerAt 0 0 0 0) initialTilt (or_introl eq_refl)).
  destruct H as [H _]. vm_compute in H. discriminate H.
Qed.

(** C2 (amended): on an interactive card the division by a zero centre is
    not guarded.  When the width is zero [tiltY] is never finite, whatever
    the sample, and it is NaN when [sampleX] is zero; likewise [tiltX] when
    the height is zero. *)
Theorem degenerate_surface_not_finite props e tilt (h : Handler) :
  onClick props = Some h ->
  ((width (currentTarget e) =? 0) = true ->
   JS.isFinite (y (handleMouseMove props e tilt)) = false /\
   ((sampleX e =? 0) = true -> is_nan (y (handleMouseMove props e tilt)) = true)) /\
  ((height (currentTarget e) =? 0) = true ->
   JS.isFinite (x (handleMouseMove props e tilt)) = false /\
   ((sampleY e =? 0) = true -> is_nan (x (handleMouseMove props e tilt)) = true)).
Proof.
  intros Hh. rewrite (handleMouseMove_interactive props e tilt h Hh).
  simpl x. simpl y. split; intros H0; split.
  - apply (degenerate_component _ _ _ false); [exact H0|reflexivity].
  - intros Hp. apply (degenerate_component_nan _ _ _ false); [exact H0|exact Hp|reflexivity].
  - apply (degenerate_component _ _ _ true); [exact H0|reflexivity].
  - intros Hp. apply (degenerate_component_nan _ _ _ true); [exact H0|exact Hp|reflexivity].
Qed.

(** C3: on an interactive card [tiltX = ((sampleY - H/2) / (H/2)) * -8] and
    [tiltY = ((sampleX - W/2) / (W/2)) * 8], for every size and sample.  On
    a 200 x 100 card the sample (200, 100) gives (-8, 8), the sample (0, 0)
    gives (8, -8), and the centre (100, 50) gives a pair whose components
    both equal 0 (the first one is the zero of negative sign). *)
Theorem handleMouseMove_formula props e tilt (h : Handler) :
  onClick props = Some h ->
  x (handleMouseMove props e tilt)
  = ((sampleY e - height (currentTarget e) / 2)
     / (height (currentTarget e) / 2)) * (-8) /\
  y (handleMouseMove props e tilt)
  = ((sampleX e - width (currentTarget e) / 2)
     / (width (currentTarget e) / 2)) * 8 /\
  handleMouseMove props (pointerAt 200 100 200 100) tilt = {| x := -8; y := 8 |} /\
  handleMouseMove props (pointerAt 0 0 200 100) tilt = {| x := 8; y := -8 |} /\
  (x (handleMouseMove props (pointerAt 100 50 200 100) tilt) =? 0) = true /\
  (y (handleMouseMove props (pointerAt 100 50 200 100) tilt) =? 0) = true.
Proof.
  intros Hh. rewrite !(handleMouseMove_interactive props _ tilt h Hh).
  repeat split; reflexivity.
Qed.

(** C5 (as stated, refuted): a positive width may be too small to halve.
    The smallest positive number [2^-1074] has centre [0], and the sample
    [0] on it gives [tiltY = NaN]. *)
Lemma tiny_surface_breaks_bound :
  ~ (forall (e : MouseEvent) (tilt : Tilt),
       (0 <? width (currentTarget e)) = true ->
       (0 <? height (currentTarget e)) = true ->
       within (sampleX e) (width (currentTarget e)) = true ->
       within (sampleY e) (height (currentTarget e)) = true ->
       let t := handleMouseMove (clickable "Speed" "Fast") e tilt in
       (-8 <=? x t) = true /\ (x t <=? 8) = true /\
       (-8 <=? y t) = true /\ (y t <=? 8) = true).
Proof.
  intros H.
  specialize (H (pointerAt 0 50 0x1p-1074 100) initialTilt
                eq_refl eq_refl eq_refl eq_refl).
  destruct H as (_ & _ & _ & H). vm_compute in H. discriminate H.
Qed.

(** C5 (amended): on an interactive card whose width and height are finite
    and at least [2^-1021], every sample with [sampleX] in [[0, width]] and
    [sampleY] in [[0, height]] gives [tiltX] and [tiltY] in [[-8, 8]]. *)
Theorem tilt_within_eight_inside props e tilt (h : Handler) :
  onClick props = Some h ->
  regularSide (width (currentTarget e)) = true ->
  regularSide (height (currentTarget e)) = true ->
  within (sampleX e) (width (currentTarget e)) = true ->
  within (sampleY e) (height (currentTarget e)) = true ->
  (-8 <=? x (handleMouseMove props e tilt)) = true /\
  (x (handleMouseMove props e tilt) <=? 8) = true /\
  (-8 <=? y (handleMouseMove props e tilt)) = true /\
  (y (handleMouseMove props e tilt) <=? 8) = true.
Proof.
  intros Hh HW HH HX HY.
  destruct (tilt_fin_le props e tilt h Hh HW HH HX HY) as [Hx Hy].
  apply fin_le_eight_leb in Hx, Hy. tauto.
Qed.

(** C6: without a click handler [handleMouseMove] leaves the tilt state as
    it was, for every sample, and so does any run of pointer moves. *)
Theorem handleMouseMove_without_onClick props :
  onClick props = None ->
  (forall e tilt, handleMouseMove props e tilt = tilt) /\
  (forall es tilt, run props (map MouseMove es) tilt = tilt).
Proof.
  intros H.
  assert (Hstep : forall e tilt, handleMouseMove props e tilt = tilt).
  { intros e tilt. unfold handleMouseMove. now rewrite H. }
  split; [exact Hstep|].
  induction es as [|e es IH]; intros tilt; [reflexivity|].
  unfold run in *. simpl. rewrite Hstep. apply IH.
Qed.

(** C7 (as stated, refuted): a NaN is falsy.  The tilt (NaN, NaN), which a
    card of size 0 x 0 produces, has scale 1 and is not (0, 0). *)
Lemma scale_of_nan_tilt :
  ~ (forall tilt : Tilt,
       scaleOf tilt = 1 <-> (x tilt =? 0) = true /\ (y tilt =? 0) = true).
Proof.
  intros H.
  destruct (H (handleMouseMove (clickable "Speed" "Fast")
                 (pointerAt 0 0 0 0) initialTilt)) as [H1 _].
  destruct (H1 eq_refl) as [H2 _]. vm_compute in H2. discriminate H2.
Qed.

Lemma one_is_not_1_02 : (1.02 : float) <> 1.
Proof.
  intros H. apply (f_equal (fun z => z =? 1)) in H. vm_compute in H. discriminate H.
Qed.

Lemma scaleOf_eq tilt :
  scaleOf tilt
  = if ((x tilt =? 0) || is_nan (x tilt)) && ((y tilt =? 0) || is_nan (y tilt))
    then 1 else 1.02.
Proof.
  unfold scaleOf, JS.or_else, JS.truthy.
  destruct ((x tilt =? 0) || is_nan (x tilt)) eqn:Ex; simpl.
  - destruct ((y tilt =? 0) || is_nan (y tilt)); reflexivity.
  - rewrite Ex. reflexivity.
Qed.

(** C7 (amended): the scale is 1 exactly when each component of the tilt is
    a zero of either sign or NaN, and it is 1.02 otherwise; an interactive
    card renders that scale. *)
Theorem scaleOf_cases tilt :
  (scaleOf tilt = 1 <->
   ((x tilt =? 0) = true \/ is_nan (x tilt) = true) /\
   ((y tilt =? 0) = true \/ is_nan (y tilt) = true)) /\
  (scaleOf tilt = 1 \/ scaleOf tilt = 1.02) /\
  (forall props (h : Handler),
     onClick props = Some h ->
     option_map scale (transform (style props tilt)) = Some (scaleOf tilt)).
Proof.
  pose proof one_is_not_1_02 as Hne.
  split; [|split].
  - rewrite scaleOf_eq, <- !orb_true_iff, <- andb_true_iff.
    destruct (((x tilt =? 0) || is_nan (x tilt))
              && ((y tilt =? 0) || is_nan (y tilt))).
    + tauto.
    + split; [intros H; contradiction|discriminate].
  - rewrite scaleOf_eq.
    destruct (((x tilt =? 0) || is_nan (x tilt))
              && ((y tilt =? 0) || is_nan (y tilt))); tauto.
  - intros props h Hh. unfold style. rewrite Hh. reflexivity.
Qed.

(** C8: [handleMouseLeave] sets the tilt to (0, 0) whatever it was before,
    and calling it twice in a row gives (0, 0) both times. *)
Theorem handleMouseLeave_resets tilt :
  handleMouseLeave tilt = {| x := 0; y := 0 |} /\
  handleMouseLeave (handleMouseLeave tilt) = {| x := 0; y := 0 |} /\
  (forall props, run props [MouseLeave; MouseLeave] tilt
                 = {| x := 0; y := 0 |}).
Proof. repeat split. Qed.

(** C9: without a click handler the rendered style has neither a
    [transform] nor a [boxShadow], whatever the tilt state. *)
Theorem style_without_onClick props tilt :
  onClick props = None ->
  transform (style props tilt) = None /\ boxShadow (style props tilt) = None.
Proof.
  intros H. unfold style. rewrite H. split; reflexivity.
Qed.

End CardClaims.

(** ** On concrete cards *)

Lemma tilt_bounded_exactly_inside_witness :
  (let t := handleMouseMove (clickable "Speed" "Fast") (pointerAt 150 20 200 100) initialTilt in
   JS.isFinite (x t) = true /\ JS.isFinite (y t) = true /\
   (abs (x t) <=? 8)%float = true /\ (abs (y t) <=? 8)%float = true) /\
  (let t := handleMouseMove (clickable "Speed" "Fast") (pointerAt 400 50 200 100) initialTilt in
   (8 <=? abs (y t))%float = true).
Proof.
  split.
  - apply (tilt_bounded_exactly_inside
             (clickable "Speed" "Fast") (pointerAt 150 20 200 100) initialTilt tt);
      reflexivity.
  - apply (tilt_bounded_exactly_inside
             (clickable "Speed" "Fast") (pointerAt 400 50 200 100) initialTilt tt);
      reflexivity.
Defined.

Lemma degenerate_surface_not_finite_witness :
  JS.isFinite (y (handleMouseMove (clickable "Speed" "Fast")
                    (pointerAt 5 5 0 100) initialTilt)) = false.
Proof.
  apply (degenerate_surface_not_finite
           (clickable "Speed" "Fast") (pointerAt 5 5 0 100) initialTilt tt);
    reflexivity.
Defined.

Lemma handleMouseMove_formula_witness :
  handleMouseMove (clickable "Speed" "Fast") (pointerAt 200 100 200 100) initialTilt
  = {| x := (-8)%float; y := 8%float |}.
Proof.
  apply (handleMouseMove_formula
           (clickable "Speed" "Fast") (pointerAt 1 1 200 100) initialTilt tt).
  reflexivity.
Defined.

Lemma tilt_within_eight_inside_witness :
  let t := handleMouseMove (clickable "Speed" "Fast") (pointerAt 150 20 200 100) initialTilt in
  (-8 <=? x t)%float = true /\ (x t <=? 8)%float = true /\
  (-8 <=? y t)%float = true /\ (y t <=? 8)%float = true.
Proof.
  apply (tilt_within_eight_inside
           (clickable "Speed" "Fast") (pointerAt 150 20 200 100) initialTilt tt);
    reflexivity.
Defined.

Lemma handleMouseMove_without_onClick_witness :
  handleMouseMove (plain "Speed" "Fast") (pointerAt 150 20 200 100)
    {| x := 3%float; y := 4%float |}
  = {| x := 3%float; y := 4%float |}.
Proof.
  apply (handleMouseMove_without_onClick (plain "Speed" "Fast")). reflexivity.
Defined.

Lemma style_without_onClick_witness :
  transform (style (plain "Speed" "Fast") {| x := 3%float; y := 4%float |}) = None /\
  boxShadow (style (plain "Speed" "Fast") {| x := 3%float; y := 4%float |}) = None.
Proof.
  apply (style_without_onClick (plain "Speed" "Fast")). reflexivity.
Defined.

(** * Properties of the profile page *)

Section PageClaims.

Local Open Scope string_scope.

(** C4 (as stated, refuted): a record held by the live lookup is not
    always displayed.  When the query holds a record together with an
    error, the page shows the error message instead of the record. *)
Lemma live_result_hidden_by_error :
  ~ (forall (userId : option string) (q : QueryResult) (st : PageState),
       JS.truthy_opt_string userId = true ->
       (forall u, data q = Some u ->
                  render userId q st = ProfileCard (cardOf u)) /\
       (forall c, render userId q st = ProfileCard c -> data q = None ->
                  isLoading q = true \/ error q <> None)).
Proof.
  intros H.
  destruct (H (Some "u1")
              {| data := Some liveUser; isLoading := false;
                 error := Some "Network request failed" |}
              initialState eq_refl) as [H1 _].
  specialize (H1 liveUser eq_refl). vm_compute in H1. discriminate H1.
Qed.

(** C4 (amended): on a page with a user id, [displayUser] is the record of
    the live lookup whenever the query holds one, and the page displays it
    when the query is neither loading nor in error, also when a saved record
    exists; while the query is loading the page shows the skeleton, and
    while it has an error the error message, whatever records exist; the
    saved record is displayed only when the query holds no record and is
    neither loading nor in error, and it is displayed then. *)
Theorem live_result_shown_once_settled
    (userId : option string) (q : QueryResult) (st : PageState) :
  JS.truthy_opt_string userId = true ->
  (forall u, data q = Some u ->
             displayUser (data q) (localUser st) = Some u) /\
  (forall u, data q = Some u -> isLoading q = false -> error q = None ->
             render userId q st = ProfileCard (cardOf u)) /\
  (isLoading q = true -> render userId q st = Skeleton) /\
  (isLoading q = false -> error q <> None ->
   render userId q st = LoadError) /\
  (forall c, render userId q st = ProfileCard c -> data q = None ->
             isLoading q = false /\ error q = None /\
             exists u, localUser st = Some u /\ c = cardOf u) /\
  (forall u, data q = None -> isLoading q = false -> error q = None ->
             localUser st = Some u ->
             render userId q st = ProfileCard (cardOf u)).
Proof.
  intros Hid. unfold render. rewrite Hid. simpl negb. cbv iota.
  split; [intros u H; now rewrite H|].
  split; [intros u Hd Hl He; now rewrite Hl, He, Hd|].
  split; [intros Hl; now rewrite Hl|].
  split.
  { intros Hl He. rewrite Hl. destruct (error q); [reflexivity|contradiction]. }
  split.
  - intros c H Hd.
    destruct (isLoading q); [discriminate|].
    destruct (error q); [discriminate|].
    rewrite Hd in H. simpl in H.
    destruct (localUser st) as [u|]; [|discriminate].
    repeat split. exists u. split; congruence.
  - intros u Hd Hl He Hu. now rewrite Hl, He, Hd, Hu.
Qed.

(** C10: when the saved string is not valid JSON, the effect catches the
    exception and completes normally, [localUser] stays [null], and the
    page renders what it renders without a saved user. *)
Theorem corrupt_saved_user_is_ignored
    (JSON_parse : string -> completion (option WiralisUser))
    (storage : Storage) (text : string) (exn : Exn) :
  getItem storage "wiralis_user" = Some text ->
  JSON_parse text = Throw exn ->
  exists st',
    loadSavedUser JSON_parse storage initialState = Normal st' /\
    localUser st' = None /\
    (text <> "" -> console st' = ["Failed to parse saved user"]) /\
    (forall userId q, render userId q st' = render userId q initialState).
Proof.
  intros Hs Hp. unfold loadSavedUser. rewrite Hs.
  unfold JS.truthy_string. destruct (String.eqb_spec text "") as [He|Hne]; simpl.
  - exists initialState. repeat split. intros H. contradiction.
  - rewrite Hp. simpl.
    exists (console_error "Failed to parse saved user" initialState).
    repeat split.
Qed.

End PageClaims.

Local Open Scope string_scope.

Lemma live_result_shown_once_settled_witness :
  render (Some "u1")
    {| data := Some liveUser; isLoading := false; error := None |}
    (setLocalUser (Some sampleUser) initialState)
  = ProfileCard (cardOf liveUser) /\
  render (Some "u1")
    {| data := None; isLoading := false; error := None |}
    (setLocalUser (Some sampleUser) initialState)
  = ProfileCard (cardOf sampleUser) /\
  render (Some "u1")
    {| data := Some liveUser; isLoading := false;
       error := Some "Network request failed" |}
    (setLocalUser (Some sampleUser) initialState)
  = LoadError.
Proof.
  split; [|split].
  - apply (proj1 (proj2 (live_result_shown_once_settled (Some "u1")
             {| data := Some liveUser; isLoading := false; error := None |}
             (setLocalUser (Some sampleUser) initialState) eq_refl)));
      reflexivity.
  - apply (proj2 (proj2 (proj2 (proj2 (proj2
             (live_result_shown_once_settled (Some "u1")
                {| data := None; isLoading := false; error := None |}
                (setLocalUser (Some sampleUser) initialState) eq_refl))))));
      reflexivity.
  - apply (proj1 (proj2 (proj2 (proj2
             (live_result_shown_once_settled (Some "u1")
                {| data := Some liveUser; isLoading := false;
                   error := Some "Network request failed" |}
                (setLocalUser (Some sampleUser) initialState) eq_refl)))));
      [reflexivity|discriminate].
Defined.

Lemma corrupt_saved_user_is_ignored_witness :
  exists st',
    loadSavedUser parseOnlyNull [("wiralis_user", "{oops")] initialState = Normal st' /\
    localUser st' = None /\
    ("{oops" <> "" -> console st' = ["Failed to parse saved user"]) /\
    (forall userId q, render userId q st' = render userId q initialState).
Proof.
  apply (corrupt_saved_user_is_ignored parseOnlyNull
           [("wiralis_user", "{oops")] "{oops" (SyntaxError "Unexpected token"));
    reflexivity.
Defined.

(** * Further properties of the card *)

Section CardRuns.

Local Open Scope float_scope.

Context {Handler : Type}.

Implicit Types (props : BenefitCardProps Handler) (e : MouseEvent) (tilt : Tilt).

(** X1: on an interactive card with regular sides a sample on the right or
    bottom edge gives exactly 8 or -8 in that axis, and a sample on the
    left or top edge exactly the opposite. *)
Theorem tilt_at_edges props e tilt (h : Handler) :
  onClick props = Some h ->
  regularSide (width (currentTarget e)) = true ->
  regularSide (height (currentTarget e)) = true ->
  (sampleX e = width (currentTarget e) -> y (handleMouseMove props e tilt) = 8) /\
  ((sampleX e =? 0) = true -> y (handleMouseMove props e tilt) = -8) /\
  (sampleY e = height (currentTarget e) -> x (handleMouseMove props e tilt) = -8) /\
  ((sampleY e =? 0) = true -> x (handleMouseMove props e tilt) = 8).
Proof.
  intros Hh HW HH.
  rewrite (handleMouseMove_interactive props e tilt h Hh). simpl x. simpl y.
  apply regularSide_split in HW, HH. destruct HW as [HW1 HW2], HH as [HH1 HH2].
  destruct (tilt_component_at_edges (sampleX e) (width (currentTarget e)) 8 false
              HW1 HW2 eq_refl) as [Hfar Hnear].
  destruct (tilt_component_at_edges (sampleY e) (height (currentTarget e)) (-8) true
              HH1 HH2 eq_refl) as [Hfar' Hnear'].
  repeat split; assumption.
Qed.

(** X2: on an interactive card with regular sides a component of the tilt
    is zero exactly when the sample lies at the centre of its axis. *)
Theorem tilt_zero_iff_centre props e tilt (h : Handler) :
  onClick props = Some h ->
  regularSide (width (currentTarget e)) = true ->
  regularSide (height (currentTarget e)) = true ->
  is_nan (sampleX e) = false ->
  is_nan (sampleY e) = false ->
  (x (handleMouseMove props e tilt) =? 0)
  = (sampleY e =? height (currentTarget e) / 2) /\
  (y (handleMouseMove props e tilt) =? 0)
  = (sampleX e =? width (currentTarget e) / 2).
Proof.
  intros Hh HW HH HX HY.
  rewrite (handleMouseMove_interactive props e tilt h Hh). simpl x. simpl y.
  apply regularSide_split in HW, HH. destruct HW as [HW1 HW2], HH as [HH1 HH2].
  split.
  - apply (tilt_component_zero_iff _ _ _ true); auto.
  - apply (tilt_component_zero_iff _ _ _ false); auto.
Qed.

(** X3: on an interactive card with regular sides the tilt follows the
    pointer: right of the centre [tiltY] is not negative and left of it
    not positive; below the centre [tiltX] is not positive and above it
    not negative. *)
Theorem tilt_direction props e tilt (h : Handler) :
  onClick props = Some h ->
  regularSide (width (currentTarget e)) = true ->
  regularSide (height (currentTarget e)) = true ->
  ((width (currentTarget e) / 2 <=? sampleX e) = true ->
   (0 <=? y (handleMouseMove props e tilt)) = true) /\
  ((sampleX e <? width (currentTarget e) / 2) = true ->
   (y (handleMouseMove props e tilt) <=? 0) = true) /\
  ((height (currentTarget e) / 2 <=? sampleY e) = true ->
   (x (handleMouseMove props e tilt) <=? 0) = true) /\
  ((sampleY e <? height (currentTarget e) / 2) = true ->
   (0 <=? x (handleMouseMove props e tilt)) = true).
Proof.
  intros Hh HW HH.
  rewrite (handleMouseMove_interactive props e tilt h Hh). simpl x. simpl y.
  apply regularSide_split in HW, HH. destruct HW as [HW1 HW2], HH as [HH1 HH2].
  destruct (tilt_component_direction (sampleX e) (width (currentTarget e)) 8
              false m_pow2 (-49) HW1 HW2 eq_refl) as [Hr Hl].
  destruct (tilt_component_direction (sampleY e) (height (currentTarget e)) (-8)
              true m_pow2 (-49) HH1 HH2 eq_refl) as [Hb Ha].
  repeat split; intros H; apply signed_leb; auto.
Qed.

Lemma nan_component (p w k : float) :
  is_nan p = true -> is_nan (((p - w / 2) / (w / 2)) * k) = true.
Proof.
  intros Hp. apply is_nan_spec in Hp. apply is_nan_spec.
  rewrite FloatAxioms.mul_spec, FloatAxioms.div_spec, FloatAxioms.sub_spec, Hp.
  reflexivity.
Qed.

(** X4: on an interactive card with regular sides a tilt component is NaN
    exactly when the sample coordinate it is computed from is NaN. *)
Theorem tilt_nan_only_from_nan props e tilt (h : Handler) :
  onClick props = Some h ->
  regularSide (width (currentTarget e)) = true ->
  regularSide (height (currentTarget e)) = true ->
  is_nan (x (handleMouseMove props e tilt)) = is_nan (sampleY e) /\
  is_nan (y (handleMouseMove props e tilt)) = is_nan (sampleX e).
Proof.
  intros Hh HW HH.
  rewrite (handleMouseMove_interactive props e tilt h Hh). simpl x. simpl y.
  apply regularSide_split in HW, HH. destruct HW as [HW1 HW2], HH as [HH1 HH2].
  split.
  - destruct (is_nan (sampleY e)) eqn:E.
    + apply nan_component. exact E.
    + apply (tilt_component_not_nan _ _ _ true m_pow2 (-49)); auto.
  - destruct (is_nan (sampleX e)) eqn:E.
    + apply nan_component. exact E.
    + apply (tilt_component_not_nan _ _ _ false m_pow2 (-49)); auto.
Qed.

Lemma run_app props (evs evs' : list PointerEvent) tilt :
  run props (evs ++ evs') tilt = run props evs' (run props evs tilt).
Proof. unfold run. apply fold_left_app. Qed.

(** X5: on an interactive card the state after a run of pointer events
    depends on the last event only, neither on the earlier events nor on
    the state the run started from. *)
Theorem last_event_decides props (h : Handler)
    (evs : list PointerEvent) (ev : PointerEvent) (t1 t2 : Tilt) :
  onClick props = Some h ->
  run props (evs ++ [ev]) t1 = dispatch props t2 ev.
Proof.
  intros Hh. rewrite run_app. unfold run. simpl.
  destruct ev as [e|]; simpl; [|reflexivity].
  now rewrite !(handleMouseMove_interactive props e _ h Hh).
Qed.

(** X6: whatever happened before, once the pointer has left the tilt is
    (0, 0) and an interactive card is rendered unrotated at scale 1, with
    its shadow. *)
Theorem leave_restores_neutral props (evs : list PointerEvent) tilt :
  run props (evs ++ [MouseLeave]) tilt = initialTilt /\
  forall h : Handler,
    onClick props = Some h ->
    transform (style props (run props (evs ++ [MouseLeave]) tilt))
    = Some {| perspective := 1000; rotateX := 0; rotateY := 0; scale := 1 |} /\
    boxShadow (style props (run props (evs ++ [MouseLeave]) tilt)) = Some shadow.
Proof.
  assert (H : run props (evs ++ [MouseLeave]) tilt = initialTilt).
  { rewrite run_app. reflexivity. }
  split; [exact H|]. intros h Hh. rewrite H. unfold style. rewrite Hh.
  split; reflexivity.
Qed.

(** X7: a card without a click handler never leaves the neutral state:
    from the initial tilt every run of moves and leaves ends in the
    initial tilt. *)
Theorem plain_card_stays_neutral props (evs : list PointerEvent) :
  onClick props = None ->
  run props evs initialTilt = initialTilt.
Proof.
  intros H. unfold run.
  induction evs as [|ev evs IH]; [reflexivity|].
  simpl. destruct ev as [e|]; simpl.
  - unfold handleMouseMove. rewrite H. exact IH.
  - exact IH.
Qed.

Lemma withinEight_split (t : Tilt) :
  withinEight t = true <->
  (-8 <=? x t) = true /\ (x t <=? 8) = true /\
  (-8 <=? y t) = true /\ (y t <=? 8) = true.
Proof. unfold withinEight. rewrite !andb_true_iff. tauto. Qed.

(** X8: as long as every move lands between the edges of a card with
    regular sides, a run of pointer events keeps both components of the
    tilt in [[-8, 8]]. *)
Theorem run_within_eight props (evs : list PointerEvent) tilt :
  forallb inBounds evs = true ->
  withinEight tilt = true ->
  withinEight (run props evs tilt) = true.
Proof.
  unfold run. revert tilt.
  induction evs as [|ev evs IH]; intros tilt Hevs Ht; [exact Ht|].
  simpl in Hevs. apply andb_true_iff in Hevs. destruct Hevs as [Hev Hevs].
  simpl. apply IH; [exact Hevs|].
  destruct ev as [e|]; simpl; [|reflexivity].
  destruct (onClick props) as [h|] eqn:Hh.
  - simpl in Hev. rewrite !andb_true_iff in Hev.
    destruct Hev as [[[HW HH] HX] HY].
    destruct (tilt_fin_le props e tilt h Hh HW HH HX HY) as [Hx Hy].
    apply fin_le_eight_leb in Hx, Hy. apply withinEight_split. tauto.
  - unfold handleMouseMove. rewrite Hh. exact Ht.
Qed.

(** X9: the two axes treat the pointer alike: [tiltX] is the opposite of
    the [tiltY] that the same offset on a side of the same length
    gives. *)
Theorem axes_mirror props (e e' : MouseEvent) (t t' : Tilt) (h : Handler) :
  onClick props = Some h ->
  sampleY e = sampleX e' ->
  height (currentTarget e) = width (currentTarget e') ->
  x (handleMouseMove props e t) = - y (handleMouseMove props e' t').
Proof.
  intros Hh Hs Hw.
  rewrite !(handleMouseMove_interactive props _ _ h Hh). simpl x. simpl y.
  rewrite Hs, Hw. apply mul_neg_eight.
Qed.

(** X10: after a move over an interactive card with regular sides the card
    is enlarged to 1.02, except when the sample is the exact centre of the
    card, where the scale stays 1. *)
Theorem enlarged_away_from_centre props e tilt (h : Handler) :
  onClick props = Some h ->
  regularSide (width (currentTarget e)) = true ->
  regularSide (height (currentTarget e)) = true ->
  is_nan (sampleX e) = false ->
  is_nan (sampleY e) = false ->
  transform (style props (handleMouseMove props e tilt))
  = Some {| perspective := 1000;
            rotateX := x (handleMouseMove props e tilt);
            rotateY := y (handleMouseMove props e tilt);
            scale := if (sampleX e =? width (currentTarget e) / 2)
                        && (sampleY e =? height (currentTarget e) / 2)
                     then 1 else 1.02 |}.
Proof.
  intros Hh HW HH HX HY.
  unfold style. rewrite Hh. f_equal. f_equal.
  rewrite scaleOf_eq.
  rewrite (handleMouseMove_interactive props e tilt h Hh). simpl x. simpl y.
  apply regularSide_split in HW, HH. destruct HW as [HW1 HW2], HH as [HH1 HH2].
  rewrite (tilt_component_not_nan _ _ (-8) true m_pow2 (-49) HH1 HH2 eq_refl HY).
  rewrite (tilt_component_not_nan _ _ 8 false m_pow2 (-49) HW1 HW2 eq_refl HX).
  rewrite (tilt_component_zero_iff _ _ (-8) true HH1 HH2 eq_refl HY).
  rewrite (tilt_component_zero_iff _ _ 8 false HW1 HW2 eq_refl HX).
  rewrite !orb_false_r, andb_comm. reflexivity.
Qed.

End CardRuns.

(** ** On concrete cards *)

Lemma tilt_at_edges_witness :
  y (handleMouseMove (clickable "Speed" "Fast") (pointerAt 640 0 640 360) initialTilt)
  = 8%float.
Proof.
  apply (tilt_at_edges (clickable "Speed" "Fast") (pointerAt 640 0 640 360)
           initialTilt tt); reflexivity.
Defined.

Lemma tilt_zero_iff_centre_witness :
  (y (handleMouseMove (clickable "Speed" "Fast") (pointerAt 321 180 640 360) initialTilt)
   =? 0)%float = false.
Proof.
  apply (proj2 (tilt_zero_iff_centre (clickable "Speed" "Fast")
                  (pointerAt 321 180 640 360) initialTilt tt
                  eq_refl eq_refl eq_refl eq_refl eq_refl)).
Defined.

Lemma enlarged_away_from_centre_witness :
  transform (style (clickable "Speed" "Fast")
               (handleMouseMove (clickable "Speed" "Fast")
                  (pointerAt 320 180 640 360) initialTilt))
  = Some {| perspective := 1000;
            rotateX := x (handleMouseMove (clickable "Speed" "Fast")
                            (pointerAt 320 180 640 360) initialTilt);
            rotateY := y (handleMouseMove (clickable "Speed" "Fast")
                            (pointerAt 320 180 640 360) initialTilt);
            scale := 1 |}.
Proof.
  apply (enlarged_away_from_centre (clickable "Speed" "Fast")
           (pointerAt 320 180 640 360) initialTilt tt); reflexivity.
Defined.

Lemma leave_restores_neutral_witness :
  transform
    (style (clickable "Speed" "Fast")
       (run (clickable "Speed" "Fast")
          ([MouseMove (pointerAt 640 0 640 360)] ++ [MouseLeave]) initialTilt))
  = Some {| perspective := 1000; rotateX := 0; rotateY := 0; scale := 1 |}.
Proof.
  apply (proj2 (leave_restores_neutral (clickable "Speed" "Fast")
                  [MouseMove (pointerAt 640 0 640 360)] initialTilt) tt).
  reflexivity.
Defined.

Lemma tilt_direction_witness :
  (0 <=? y (handleMouseMove (clickable "Speed" "Fast")
              (pointerAt 500 90 640 360) initialTilt))%float = true.
Proof.
  apply (tilt_direction (clickable "Speed" "Fast") (pointerAt 500 90 640 360)
           initialTilt tt); reflexivity.
Defined.

Lemma tilt_nan_only_from_nan_witness :
  is_nan (x (handleMouseMove (clickable "Speed" "Fast")
               (pointerAt 500 nan 640 360) initialTilt)) = true.
Proof.
  apply (proj1 (tilt_nan_only_from_nan (clickable "Speed" "Fast")
                  (pointerAt 500 nan 640 360) initialTilt tt
                  eq_refl eq_refl eq_refl)).
Defined.

Lemma last_event_decides_witness :
  run (clickable "Speed" "Fast")
    ([MouseMove (pointerAt 1 2 640 360); MouseLeave] ++ [MouseMove (pointerAt 640 0 640 360)])
    initialTilt
  = dispatch (clickable "Speed" "Fast") {| x := 3%float; y := 4%float |}
      (MouseMove (pointerAt 640 0 640 360)).
Proof.
  apply (last_event_decides (clickable "Speed" "Fast") tt). reflexivity.
Defined.

Lemma plain_card_stays_neutral_witness :
  run (plain "Speed" "Fast")
    [MouseMove (pointerAt 1 2 640 360); MouseLeave; MouseMove (pointerAt 640 0 640 360)]
    initialTilt
  = initialTilt.
Proof.
  apply (plain_card_stays_neutral (plain "Speed" "Fast")). reflexivity.
Defined.

Lemma run_within_eight_witness :
  withinEight
    (run (clickable "Speed" "Fast")
       [MouseMove (pointerAt 1 2 640 360); MouseLeave; MouseMove (pointerAt 640 0 640 360)]
       initialTilt) = true.
Proof.
  apply (run_within_eight (clickable "Speed" "Fast")); reflexivity.
Defined.

Lemma axes_mirror_witness :
  x (handleMouseMove (clickable "Speed" "Fast") (pointerAt 7 100 640 360) initialTilt)
  = (- y (handleMouseMove (clickable "Speed" "Fast") (pointerAt 100 9 360 200) initialTilt))%float.
Proof.
  apply (axes_mirror (clickable "Speed" "Fast") (pointerAt 7 100 640 360)
           (pointerAt 100 9 360 200) initialTilt initialTilt tt); reflexivity.
Defined.

(** * Further properties of the profile page *)

Section PageRuns.

Local Open Scope string_scope.

Variable JSON_parse : string -> completion (option WiralisUser).

(** X11: the effect never throws, whatever [JSON.parse] does: it completes
    normally, only adds to the console, and changes [localUser] only to
    the value that a non-empty saved string parses to. *)
Theorem loadSavedUser_never_throws (storage : Storage) (st : PageState) :
  exists st',
    loadSavedUser JSON_parse storage st = Normal st' /\
    (exists written, console st' = (console st ++ written)%list) /\
    (localUser st' = localUser st \/
     exists text,
       getItem storage "wiralis_user" = Some text /\ text <> "" /\
       JSON_parse text = Normal (localUser st')).
Proof.
  unfold loadSavedUser.
  destruct (getItem storage "wiralis_user") as [text|].
  - unfold JS.truthy_string.
    destruct (String.eqb_spec text "") as [He|Hne]; simpl.
    + exists st. split; [reflexivity|]. split; [exists []; now rewrite app_nil_r|].
      left. reflexivity.
    + destruct (JSON_parse text) as [u|exn] eqn:Hp; simpl.
      * exists (setLocalUser u st). split; [reflexivity|].
        split; [exists []; simpl; now rewrite app_nil_r|].
        right. exists text. repeat split; assumption.
      * exists (console_error "Failed to parse saved user" st).
        split; [reflexivity|]. split; [eexists; reflexivity|]. left. reflexivity.
  - exists st. split; [reflexivity|]. split; [exists []; now rewrite app_nil_r|].
    left. reflexivity.
Qed.

(** X12: a saved user that parses is the one the page shows once the
    query is idle without data (not loading, no error, no record). *)
Theorem saved_user_is_shown_when_query_idle
    (storage : Storage) (text : string) (u : WiralisUser)
    (userId : option string) (q : QueryResult) :
  getItem storage "wiralis_user" = Some text ->
  text <> "" ->
  JSON_parse text = Normal (Some u) ->
  JS.truthy_opt_string userId = true ->
  data q = None -> isLoading q = false -> error q = None ->
  exists st',
    loadSavedUser JSON_parse storage initialState = Normal st' /\
    render userId q st' = ProfileCard (cardOf u).
Proof.
  intros Hs Hne Hp Hid Hd Hl He.
  exists (setLocalUser (Some u) initialState). split.
  - unfold loadSavedUser. rewrite Hs. unfold JS.truthy_string.
    destruct (String.eqb_spec text "") as [H|_]; [contradiction|].
    simpl. rewrite Hp. reflexivity.
  - unfold render. rewrite Hid, Hl, He, Hd. reflexivity.
Qed.

(** X13: without a saved entry, or with an empty one, the effect leaves the
    state as it is, whatever the parser would answer. *)
Theorem no_saved_user_no_effect (storage : Storage) (st : PageState) :
  getItem storage "wiralis_user" = None \/
  getItem storage "wiralis_user" = Some "" ->
  loadSavedUser JSON_parse storage st = Normal st.
Proof.
  intros [H|H]; unfold loadSavedUser; rewrite H; reflexivity.
Qed.

Lemma getItem_removeItem_same (storage : Storage) (key : string) :
  getItem (removeItem storage key) key = None.
Proof.
  induction storage as [|[k v] rest IH]; [reflexivity|].
  unfold removeItem in *. simpl.
  destruct (String.eqb k key) eqn:E; simpl; [exact IH|].
  rewrite E. exact IH.
Qed.

Lemma getItem_removeItem_other (storage : Storage) (key key' : string) :
  key' <> key ->
  getItem (removeItem storage key) key' = getItem storage key'.
Proof.
  intros Hne.
  induction storage as [|[k v] rest IH]; [reflexivity|].
  unfold removeItem in *. simpl.
  destruct (String.eqb k key) eqn:E; simpl.
  - apply String.eqb_eq in E. subst k.
    destruct (String.eqb_spec key key') as [H|_]; [congruence|]. exact IH.
  - destruct (String.eqb k key'); [reflexivity|exact IH].
Qed.

(** X14: after a logout the saved user is gone: the location is the home
    page, a later mount of the page finds nothing to load, and every other
    entry of the store is as it was. *)
Theorem logout_forgets_saved_user (storage : Storage) (st : PageState) :
  snd (handleLogout storage) = "/" /\
  getItem (fst (handleLogout storage)) "wiralis_user" = None /\
  loadSavedUser JSON_parse (fst (handleLogout storage)) st = Normal st /\
  (forall key, key <> "wiralis_user" ->
               getItem (fst (handleLogout storage)) key = getItem storage key).
Proof.
  unfold handleLogout. simpl fst. simpl snd.
  repeat split.
  - apply getItem_removeItem_same.
  - unfold loadSavedUser. now rewrite getItem_removeItem_same.
  - intros key Hne. apply getItem_removeItem_other. exact Hne.
Qed.

End PageRuns.

Section PageViews.

Local Open Scope string_scope.

(** X15: the saved user can change what the page shows only while the
    query is idle without data: without a user id, while loading, after an
    error or with a record from the lookup, the page is the same for every
    state of the component. *)
Theorem cache_matters_only_when_idle
    (userId : option string) (q : QueryResult) (st1 st2 : PageState) :
  JS.truthy_opt_string userId = false \/ isLoading q = true \/
  error q <> None \/ data q <> None ->
  render userId q st1 = render userId q st2.
Proof.
  unfold render. intros [H|[H|[H|H]]].
  - now rewrite H.
  - rewrite H. now destruct (negb (JS.truthy_opt_string userId)).
  - destruct (negb (JS.truthy_opt_string userId)); [reflexivity|].
    destruct (isLoading q); [reflexivity|].
    destruct (error q); [reflexivity|contradiction].
  - destruct (negb (JS.truthy_opt_string userId)); [reflexivity|].
    destruct (isLoading q); [reflexivity|].
    destruct (error q); [reflexivity|].
    destruct (data q); [reflexivity|contradiction].
Qed.

(** X16: the lookup is enabled exactly when the page does not answer
    "user not found": both test the same route parameter. *)
Theorem lookup_enabled_iff_page_found
    (userId : option string) (q : QueryResult) (st : PageState) :
  enabled (queryOptions userId) = true <-> render userId q st <> NotFound.
Proof.
  unfold render, queryOptions. simpl.
  destruct (JS.truthy_opt_string userId); simpl.
  - split; [|reflexivity]. intros _.
    destruct (isLoading q); [discriminate|].
    destruct (error q); [discriminate|].
    destruct (displayUser (data q) (localUser st)); discriminate.
  - split; [discriminate|]. intros H. contradiction.
Qed.

(** X17: the page renders nothing below its header exactly when there is a
    user id, the query is idle without data, and no saved user has been
    loaded. *)
Theorem blank_page_iff
    (userId : option string) (q : QueryResult) (st : PageState) :
  render userId q st = Blank <->
  JS.truthy_opt_string userId = true /\ isLoading q = false /\
  error q = None /\ data q = None /\ localUser st = None.
Proof.
  unfold render, displayUser.
  destruct (JS.truthy_opt_string userId); simpl;
    [|split; [discriminate|intros [H _]; discriminate]].
  destruct (isLoading q);
    [split; [discriminate|intros (_ & H & _); discriminate]|].
  destruct (error q);
    [split; [discriminate|intros (_ & _ & H & _); discriminate]|].
  destruct (data q);
    [split; [discriminate|intros (_ & _ & _ & H & _); discriminate]|].
  destruct (localUser st);
    [split; [discriminate|intros (_ & _ & _ & _ & H); discriminate]|].
  split; [intros _; repeat split|reflexivity].
Qed.

End PageViews.

Lemma saved_user_is_shown_when_query_idle_witness :
  exists st',
    loadSavedUser parseKnown [("wiralis_user", "{sampleUser}")] initialState = Normal st' /\
    render (Some "u1") {| data := None; isLoading := false; error := None |} st'
    = ProfileCard (cardOf sampleUser).
Proof.
  apply (saved_user_is_shown_when_query_idle parseKnown
           [("wiralis_user", "{sampleUser}")] "{sampleUser}" sampleUser);
    try reflexivity.
  discriminate.
Defined.

Lemma no_saved_user_no_effect_witness :
  loadSavedUser parseKnown [("theme", "dark"); ("wiralis_user", "")] initialState
  = Normal initialState.
Proof.
  apply (no_saved_user_no_effect parseKnown). right. reflexivity.
Defined.

Lemma logout_forgets_saved_user_witness :
  getItem (fst (handleLogout [("theme", "dark"); ("wiralis_user", "{sampleUser}")])) "theme"
  = Some "dark".
Proof.
  apply (proj2 (proj2 (proj2 (logout_forgets_saved_user parseKnown
           [("theme", "dark"); ("wiralis_user", "{sampleUser}")] initialState)))
           "theme").
  discriminate.
Defined.

Lemma cache_matters_only_when_idle_witness :
  render (Some "u1") {| data := None; isLoading := true; error := None |} initialState
  = render (Some "u1") {| data := None; isLoading := true; error := None |}
      (setLocalUser (Some sampleUser) initialState).
Proof.
  apply (cache_matters_only_when_idle (Some "u1")). right. left. reflexivity.
Defined.
